(** * lazykit.tool_kit

    A shallow embedding of [src/lazykit/tool_kit.py]: the retry decorator
    ([setup_retry], [retry], the closure [wrapper]), the module check
    ([_check_module_installed], [check_module_installed]) and the lookup of
    the version of Chrome ([get_chrome_version_unix], [get_chrome_version]),
    with their properties.

    Conventions of the embedding:
    - a Python [int] is a [Z]; a Python [float] is a binary64 [float], with
      the arithmetic of the machine; a number [int | float] is a [num];
    - [None] is the [None] of [option];
    - the process-wide dict [DEFAULT_RETRY_CONFIG] has two fixed keys and is
      a record;
    - what lies outside the module is a parameter: the wrapped function,
      and what [time.sleep] does with a length;
    - everything the wrapper does to the outside world (calling the wrapped
      function, calling [log_func], calling [time.sleep]) is logged as an
      [event], in order. *)

From Stdlib Require Import List ZArith QArith Bool String Ascii Lia Floats.
Import ListNotations.

Local Open Scope Z_scope.

(** ** Exceptions *)

(** The part of Python's exception hierarchy the decorator can tell apart,
    with user classes deriving from any class. *)
Inductive exc_class : Type :=
| BaseException
| Exception
| SystemExit
| KeyboardInterrupt
| GeneratorExit
| ValueError
| OSError
| TimeoutError
| UserDefined (name : string) (base : exc_class).

Definition exc_class_eq_dec (c d : exc_class) : {c = d} + {c <> d}.
Proof.
  decide equality. apply string_dec.
Defined.

(** Method resolution order of a class: the class and its ancestors. *)
Fixpoint mro (c : exc_class) : list exc_class :=
  match c with
  | BaseException => [BaseException]
  | Exception => [Exception; BaseException]
  | SystemExit => [SystemExit; BaseException]
  | KeyboardInterrupt => [KeyboardInterrupt; BaseException]
  | GeneratorExit => [GeneratorExit; BaseException]
  | ValueError => [ValueError; Exception; BaseException]
  | OSError => [OSError; Exception; BaseException]
  | TimeoutError => [TimeoutError; OSError; Exception; BaseException]
  | UserDefined _ base => c :: mro base
  end.

Definition issubclass (c d : exc_class) : bool :=
  existsb (fun a => if exc_class_eq_dec a d then true else false) (mro c).

(** An exception object: its class and its message. *)
Record exc : Type := mk_exc { exc_type : exc_class; exc_args : string }.

(** [isinstance(e, classes)] for a tuple of classes: what decides whether
    [except classes as e] catches [e]. *)
Definition isinstance (e : exc) (classes : list exc_class) : bool :=
  existsb (issubclass (exc_type e)) classes.

(** [OverflowError] and its base. *)
Definition ArithmeticError : exc_class :=
  UserDefined "ArithmeticError" Exception.

Definition OverflowError : exc_class :=
  UserDefined "OverflowError" ArithmeticError.

(** ** Results *)

(** What a call leaves behind: a value, or a raised exception. *)
Inductive result (A : Type) : Type :=
| Ok (a : A)
| Exn (e : exc).
Arguments Ok {A} a.
Arguments Exn {A} e.

(** ** Numbers *)

(** A value of type [int | float]. *)
Inductive num : Type :=
| PInt (z : Z)
| PFloat (f : float).

(** [float(z)]: the nearest float, ties to even, or nothing when the
    integer is beyond the floats and Python raises [OverflowError]. *)
Definition float_of_int (z : Z) : option float :=
  let f := SF2Prim (binary_normalize prec emax z 0 false) in
  if is_infinity f then None else Some f.

Definition int_too_large : exc :=
  mk_exc OverflowError "int too large to convert to float".

(** [x * y]: integers multiply exactly, a float times a float rounds, and
    an integer next to a float is converted first. *)
Definition py_mul (x y : num) : result num :=
  match x, y with
  | PInt a, PInt b => Ok (PInt (a * b))
  | PInt a, PFloat g =>
      match float_of_int a with
      | Some f => Ok (PFloat (f * g))
      | None => Exn int_too_large
      end
  | PFloat f, PInt b =>
      match float_of_int b with
      | Some g => Ok (PFloat (f * g))
      | None => Exn int_too_large
      end
  | PFloat f, PFloat g => Ok (PFloat (f * g))
  end.

(** The rational that a finite float is. *)
Definition float_to_Q (f : float) : option Q :=
  match Prim2SF f with
  | S754_zero _ => Some 0%Q
  | S754_finite s m e =>
      Some ((inject_Z (if s then Z.neg m else Z.pos m)) * 2 ^ e)%Q
  | S754_infinity _ => None
  | S754_nan => None
  end.

(** [x >= y] for a float [x]: floats compare as floats, and an integer is
    compared with the float exactly. *)
Definition float_ge (x : float) (y : num) : bool :=
  match y with
  | PFloat g => (g <=? x)%float
  | PInt z =>
      match Prim2SF x with
      | S754_nan => false
      | S754_infinity s => negb s
      | _ =>
          match float_to_Q x with
          | Some q => Qle_bool (inject_Z z) q
          | None => false
          end
      end
  end.

(** ** Truthiness *)

(** [bool(x)] for [x : int | None]. *)
Definition truthy_int (x : option Z) : bool :=
  match x with
  | None => false
  | Some z => negb (z =? 0)
  end.

(** [bool(x)] for a number: zero is false, and so is minus zero. *)
Definition truthy (x : num) : bool :=
  match x with
  | PInt z => negb (z =? 0)
  | PFloat f => negb (f =? 0)%float
  end.

(** [bool(x)] for [x : int | float | None]. *)
Definition truthy_num (x : option num) : bool :=
  match x with
  | None => false
  | Some n => truthy n
  end.

(** [x or y], for an optional integer and an integer. *)
Definition or_int (x : option Z) (y : Z) : Z :=
  match x with
  | Some z => if truthy_int x then z else y
  | None => y
  end.

(** [x or y], for an optional number and a number. *)
Definition or_num (x : option num) (y : num) : num :=
  match x with
  | Some n => if truthy_num x then n else y
  | None => y
  end.

(** [range(lo, hi)] *)
Definition range (lo hi : Z) : list Z :=
  map (fun i => lo + Z.of_nat i) (seq 0 (Z.to_nat (hi - lo))).

(** ** The global default configuration *)

(** [DEFAULT_RETRY_CONFIG = {'max_retries': ..., 'delay': ...}] *)
Record RetryConfig : Type := mk_config {
  cfg_max_retries : Z;
  cfg_delay : num
}.

Definition DEFAULT_RETRY_CONFIG : RetryConfig := mk_config 3 (PFloat 1).

(** ** What the decorator captures *)

(** The variables of [retry] that the closure [wrapper] reads: the
    parameters of [retry], with [max_retries] and [delay] as rebound on the
    first two lines of its body. *)
Record Closure : Type := mk_closure {
  max_retries : Z;
  delay : num;
  backoff : num;
  exceptions : list exc_class;
  max_duration : option num;
  alert_threshold : option Z
}.

(** The keyword arguments of a call of [retry]: [None] is an argument that
    is not passed, or, where the parameter allows it, passed as [None]. *)
Record RetryKwargs : Type := mk_kwargs {
  kw_max_retries : option Z;
  kw_delay : option num;
  kw_backoff : option num;
  kw_exceptions : option (list exc_class);
  kw_max_duration : option num;
  kw_alert_threshold : option Z
}.

(** The defaults in the signature of [retry]. *)
Definition default_backoff : num := PFloat 2.
Definition default_exceptions : list exc_class := [Exception].

Section Retry.

(** The wrapped function returns values of type [V] and has a state of its
    own of type [St]. *)
Variables (V St : Type).

(** The world outside the decorator: the wall clock read by [time.time()]
    and whatever the wrapped function keeps. *)
Record World : Type := mk_world { clock : float; opstate : St }.

(** The state of the process: the global dict and the world. *)
Record Sys : Type := mk_sys { config : RetryConfig; world : World }.

(** The three strings handed to [log_func], by format string. *)
Inductive message : Type :=
| MsgAlert (threshold : Z)         (* the warning that names alert_threshold *)
| MsgTerminate                     (* the notice that max_duration is over *)
| MsgRetry (attempt : Z) (e : exc) (* the notice naming attempt and e *).

Inductive event : Type :=
| EvCall (r : result V) (* func was called and did r *)
| EvLog (m : message)    (* log_func(m) *)
| EvSleep (d : num)      (* time.sleep(d) slept *).

(** *** A monad for state, exceptions and the event log *)

Definition M (A : Type) : Type := Sys -> result A * Sys * list event.

Definition ret {A} (a : A) : M A := fun s => (Ok a, s, []).

Definition raise {A} (e : exc) : M A := fun s => (Exn e, s, []).

Definition bind {A B} (m : M A) (k : A -> M B) : M B :=
  fun s =>
    match m s with
    | (Ok a, s1, t1) =>
        match k a s1 with
        | (r, s2, t2) => (r, s2, t1 ++ t2)
        end
    | (Exn e, s1, t1) => (Exn e, s1, t1)
    end.

(** [try: m  except classes as e: handler(e)] *)
Definition try_except {A} (m : M A) (classes : list exc_class)
    (handler : exc -> M A) : M A :=
  fun s =>
    match m s with
    | (Ok a, s1, t1) => (Ok a, s1, t1)
    | (Exn e, s1, t1) =>
        if isinstance e classes then
          match handler e s1 with
          | (r, s2, t2) => (r, s2, t1 ++ t2)
          end
        else (Exn e, s1, t1)
    end.

Definition when (b : bool) (m : M unit) : M unit :=
  if b then m else ret tt.

(** An operation of the language that returns or raises. *)
Definition lift {A} (r : result A) : M A := fun s => (r, s, []).

Notation "x <- m ;; k" := (bind m (fun x => k))
  (at level 61, m at next level, right associativity).
Notation "m ;; k" := (bind m (fun _ => k))
  (at level 61, right associativity).

(** *** The primitives the wrapper uses *)

(** The wrapped function, with its arguments fixed: it sees and changes the
    world, and returns or raises. *)
Variable func : World -> result V * World.

(** What [time.sleep] raises for a length instead of sleeping, if anything:
    [ValueError] for a negative length, [OverflowError] for a length out of
    range, an [OSError] of the system. *)
Variable sleep_raises : num -> option exc.

Definition set_world (s : Sys) (w : World) : Sys :=
  {| config := config s; world := w |}.

(** The call of [func] on the arguments of the wrapper. *)
Definition call_func : M V :=
  fun s =>
    let (r, w) := func (world s) in
    (r, set_world s w, [EvCall r]).

(** [log_func(m)]: the reporter takes the message and returns. *)
Definition log_func (m : message) : M unit :=
  fun s => (Ok tt, s, [EvLog m]).

(** [time.time()] *)
Definition time_time : M float :=
  fun s => (Ok (clock (world s)), s, []).

(** A length in seconds as a float. *)
Definition seconds (d : num) : float :=
  match d with
  | PInt z => SF2Prim (binary_normalize prec emax z 0 false)
  | PFloat f => f
  end.

(** The world after a sleep of [d] seconds. *)
Definition advance (d : num) (w : World) : World :=
  {| clock := (clock w + seconds d)%float; opstate := opstate w |}.

(** [time.sleep(d)]: raises what [sleep_raises] says, and otherwise lets
    [d] seconds pass. *)
Definition time_sleep (d : num) : M unit :=
  fun s =>
    match sleep_raises d with
    | Some e => (Exn e, s, [])
    | None => (Ok tt, set_world s (advance d (world s)), [EvSleep d])
    end.

(** *** setup_retry and retry *)

(** [setup_retry(max_retries, delay)] *)
Definition setup_retry (max_retries : Z) (delay : num) : M unit :=
  fun s =>
    (Ok tt, {| config := mk_config max_retries delay; world := world s |}, []).

(** [retry(max_retries, delay, backoff, exceptions, max_duration,
    alert_threshold)]: the two [or] lines, then the closure. *)
Definition retry (max_retries : option Z) (delay : option num) (backoff : num)
    (exceptions : list exc_class) (max_duration : option num)
    (alert_threshold : option Z) : M Closure :=
  fun s =>
    let max_retries := or_int max_retries (cfg_max_retries (config s)) in
    let delay := or_num delay (cfg_delay (config s)) in
    (Ok (mk_closure max_retries delay backoff exceptions max_duration
           alert_threshold), s, []).

(** A call of [retry] with keyword arguments: the parameters that are not
    passed take the defaults of the signature. *)
Definition retry_call (kw : RetryKwargs) : M Closure :=
  retry (kw_max_retries kw) (kw_delay kw)
    (match kw_backoff kw with Some b => b | None => default_backoff end)
    (match kw_exceptions kw with
     | Some classes => classes
     | None => default_exceptions
     end)
    (kw_max_duration kw) (kw_alert_threshold kw).

(** *** wrapper *)

Section Wrapper.

Variable c : Closure.

(** The [except exceptions as e:] block of attempt [attempt], with the
    value [current_delay] has when it is entered; it raises, or ends with the
    new value of [current_delay]. *)
Definition handler (start_time : float) (attempt : Z) (current_delay : num)
    (e : exc) : M (V + num) :=
  if attempt =? max_retries c then raise e
  else
    match alert_threshold c with
    | Some t =>
        when (truthy_int (Some t) && (t <=? attempt)) (log_func (MsgAlert t))
    | None => ret tt
    end ;;
    match max_duration c with
    | Some m =>
        if truthy_num (Some m) then
          now <- time_time ;;
          if float_ge (now - start_time)%float m
          then log_func MsgTerminate ;; raise e
          else ret tt
        else ret tt
    | None => ret tt
    end ;;
    log_func (MsgRetry attempt e) ;;
    time_sleep current_delay ;;
    d <- lift (py_mul current_delay (backoff c)) ;;
    ret (inr d).

(** The [for attempt in range(...)] loop: [inl v] of the body is
    [return v], [inr d] is the end of the body with [current_delay = d]. *)
Fixpoint attempt_loop (start_time : float) (attempts : list Z)
    (current_delay : num) : M (option V) :=
  match attempts with
  | [] => ret None
  | attempt :: rest =>
      x <- try_except (v <- call_func ;; ret (inl v)) (exceptions c)
             (handler start_time attempt current_delay) ;;
      match x with
      | inl v => ret (Some v)
      | inr d => attempt_loop start_time rest d
      end
  end.

(** The closure [wrapper]; [None] is the [None] Python returns when
    the loop ends without a [return]. *)
Definition wrapper : M (option V) :=
  start_time <- time_time ;;
  attempt_loop start_time (range 1 (max_retries c + 1)) (delay c).

End Wrapper.

End Retry.

Arguments mk_world {St} clock opstate.
Arguments clock {St} w.
Arguments opstate {St} w.
Arguments mk_sys {St} config world.
Arguments config {St} s.
Arguments world {St} s.
Arguments EvCall {V} r.
Arguments EvLog {V} m.
Arguments EvSleep {V} d.
Arguments setup_retry {V St} max_retries delay s.
Arguments retry {V St} max_retries delay backoff exceptions max_duration
  alert_threshold s.
Arguments retry_call {V St} kw s.
Arguments wrapper {V St} func sleep_raises c s.
Arguments attempt_loop {V St} func sleep_raises c start_time attempts
  current_delay s.
Arguments handler {V St} sleep_raises c start_time attempt current_delay e s.
Arguments set_world {St} s w.
Arguments advance {St} d w.
Arguments call_func {V St} func s.
Arguments log_func {V St} m s.
Arguments time_time {V St} s.
Arguments time_sleep {V St} sleep_raises d s.

(** ** Reading the event log *)

Section Observations.

Context {V : Type}.

(** How many times the wrapped function was called. *)
Fixpoint calls (tr : list (event V)) : nat :=
  match tr with
  | [] => 0
  | EvCall _ :: tr' => S (calls tr')
  | _ :: tr' => calls tr'
  end.

(** The lengths of the sleeps, in order. *)
Fixpoint sleeps (tr : list (event V)) : list num :=
  match tr with
  | [] => []
  | EvSleep d :: tr' => d :: sleeps tr'
  | _ :: tr' => sleeps tr'
  end.

(** The messages the reporter received, in order. *)
Fixpoint logs (tr : list (event V)) : list message :=
  match tr with
  | [] => []
  | EvLog m :: tr' => m :: logs tr'
  | _ :: tr' => logs tr'
  end.

(** The events up to the next call of the wrapped function. *)
Fixpoint until_call (tr : list (event V)) : list (event V) :=
  match tr with
  | [] => []
  | EvCall _ :: _ => []
  | ev :: tr' => ev :: until_call tr'
  end.

(** The log cut into attempts: what each call did, and the events between
    it and the next call. *)
Fixpoint attempts_of (tr : list (event V)) : list (result V * list (event V)) :=
  match tr with
  | [] => []
  | EvCall r :: tr' => (r, until_call tr') :: attempts_of tr'
  | _ :: tr' => attempts_of tr'
  end.

Definition is_alert (m : message) : bool :=
  match m with MsgAlert _ => true | _ => false end.

(** The log without the alert messages. *)
Definition without_alerts (tr : list (event V)) : list (event V) :=
  filter (fun ev => match ev with EvLog m => negb (is_alert m) | _ => true end)
    tr.

End Observations.

(** ** The schedule of a run in which every attempt is retried *)

(** The value of [current_delay] after [j] retries, if every
    multiplication has succeeded. *)
Fixpoint nth_delay (d b : num) (j : nat) : option num :=
  match j with
  | O => Some d
  | S j' =>
      match py_mul d b with
      | Ok d' => nth_delay d' b j'
      | Exn _ => None
      end
  end.

(** The lengths of the first [n] sleeps, if [time.sleep] takes each of
    them and the multiplication after each succeeds. *)
Fixpoint backoff_delays (sleep_raises : num -> option exc) (d b : num)
    (n : nat) : option (list num) :=
  match n with
  | O => Some []
  | S n' =>
      match sleep_raises d with
      | Some _ => None
      | None =>
          match py_mul d b with
          | Ok d' => option_map (cons d) (backoff_delays sleep_raises d' b n')
          | Exn _ => None
          end
      end
  end.

Section Schedule.

Context {V St : Type} (func : World St -> result V * World St).

(** The world in which the next call is made, when the run is in [w] and
    each call is followed by a sleep of the next length in [ds]. *)
Fixpoint call_world (w : World St) (ds : list num) : World St :=
  match ds with
  | [] => w
  | d :: ds' => call_world (advance d (snd (func w))) ds'
  end.

(** What call number [j + 1] does in that run, and the world it leaves. *)
Definition nth_call (w : World St) (ds : list num) (j : nat) : result V :=
  fst (func (call_world w (firstn j ds))).

Definition world_after_call (w : World St) (ds : list num) (j : nat)
    : World St :=
  snd (func (call_world w (firstn j ds))).

End Schedule.

(** The events of the alert check of attempt [attempt]. *)
Definition alert_events {V} (c : Closure) (attempt : Z) : list (event V) :=
  match alert_threshold c with
  | Some t =>
      if truthy_int (Some t) && (t <=? attempt) then [EvLog (MsgAlert t)]
      else []
  | None => []
  end.

(** Whether the duration check stops the run at time [now]. *)
Definition duration_due (c : Closure) (start_time now : float) : bool :=
  match max_duration c with
  | Some m => truthy_num (Some m) && float_ge (now - start_time)%float m
  | None => false
  end.

(** The state [s] with another global dict. *)
Definition with_config {St} (cfg : RetryConfig) (s : Sys St) : Sys St :=
  {| config := cfg; world := world s |}.

(** The closure [c] with another [max_duration], or another
    [alert_threshold]. *)
Definition with_max_duration (c : Closure) (md : option num) : Closure :=
  mk_closure (max_retries c) (delay c) (backoff c) (exceptions c) md
    (alert_threshold c).

Definition with_alert_threshold (c : Closure) (a : option Z) : Closure :=
  mk_closure (max_retries c) (delay c) (backoff c) (exceptions c)
    (max_duration c) a.

(** The messages a closure can send: an alert only for its own non-zero
    [alert_threshold], the termination notice only with a non-zero
    [max_duration]. *)
Definition message_allowed (c : Closure) (m : message) : Prop :=
  match m with
  | MsgAlert t => alert_threshold c = Some t /\ t <> 0
  | MsgTerminate => truthy_num (max_duration c) = true
  | MsgRetry _ _ => True
  end.

(** An alert after every caught failure of an attempt numbered
    [t] or more, and after no earlier one: attempts are counted from 1, so
    the [i]-th entry of [attempts_of], counted from 0, is attempt [i + 1]. *)
Definition alert_at_every_failure_from {V} (t : Z) (ex : list exc_class)
    (tr : list (event V)) : Prop :=
  forall i e evs,
    nth_error (attempts_of tr) i = Some (Exn e, evs) ->
    isinstance e ex = true ->
    (t <= Z.of_nat (S i) <-> In (EvLog (MsgAlert t)) evs).



(** A list of attempts whose last element, if any, is [m]. *)
Definition ends_at (m : Z) (attempts : list Z) : Prop :=
  forall pre a, attempts = pre ++ [a] -> a = m.

(** ** Samples *)

(** The errors of [time.sleep] in CPython 3.11. *)
Definition sleep_overflow : exc :=
  mk_exc OverflowError "timestamp too large to convert to C _PyTime_t".

Definition sleep_negative : exc :=
  mk_exc ValueError "sleep length must be non-negative".

Definition sleep_nan : exc :=
  mk_exc ValueError "Invalid value NaN (not a number)".

(** A [time.sleep] that refuses what CPython 3.11 refuses before it
    sleeps: a length beyond 9223372036 seconds either way with
    [OverflowError], not a number and a negative length with
    [ValueError]. *)
Definition cpython_sleep_raises (d : num) : option exc :=
  match d with
  | PInt z =>
      if (z <? -9223372036) || (9223372036 <? z) then Some sleep_overflow
      else if z <? 0 then Some sleep_negative
      else None
  | PFloat f =>
      if is_nan f then Some sleep_nan
      else if (f <? -9223372037)%float || (9223372037 <? f)%float
      then Some sleep_overflow
      else if (f <? 0)%float then Some sleep_negative
      else None
  end.

Definition failure : exc := mk_exc ValueError "failed".

Definition interrupt : exc := mk_exc KeyboardInterrupt "interrupted".

(** Counts its calls, takes an eighth of a second and fails. *)
Definition always_fails (w : World nat) : result nat * World nat :=
  (Exn failure,
   {| clock := (clock w + 0.125)%float; opstate := S (opstate w) |}).

(** Fails at its first [k - 1] calls and returns [v] from the [k]-th on. *)
Definition fails_until (k : nat) (v : nat) (w : World nat)
    : result nat * World nat :=
  let w' :=
    {| clock := (clock w + 0.125)%float; opstate := S (opstate w) |} in
  if (S (opstate w) <? k)%nat then (Exn failure, w') else (Ok v, w').

(** Stopped by the user at every call. *)
Definition interrupted (w : World nat) : result nat * World nat :=
  (Exn interrupt, {| clock := clock w; opstate := S (opstate w) |}).

(** The process right after the module is loaded. *)
Definition fresh : Sys nat :=
  {| config := DEFAULT_RETRY_CONFIG;
     world := {| clock := 0; opstate := O |} |}.

(** [retry()] with nothing passed. *)
Definition no_kwargs : RetryKwargs := mk_kwargs None None None None None None.

(** Three attempts, one second, doubling. *)
Definition three_attempts : Closure :=
  mk_closure 3 (PFloat 1) default_backoff default_exceptions None None.




(** Five attempts, alerts from the second. *)
Definition five_attempts_alert_from_2 : Closure :=
  mk_closure 5 (PFloat 1) default_backoff default_exceptions None (Some 2).

(** Five attempts within a second, alerts from the second. *)
Definition five_attempts_within_1_second : Closure :=
  mk_closure 5 (PFloat 1) default_backoff default_exceptions (Some (PInt 1))
    (Some 2).

(** Three attempts that retry on [OSError] only. *)
Definition three_attempts_on_OSError : Closure :=
  mk_closure 3 (PFloat 1) default_backoff [OSError] None None.

(** Three attempts with a delay below zero. *)
Definition three_attempts_negative_delay : Closure :=
  mk_closure 3 (PInt (-1)) default_backoff default_exceptions None None.

(** ** Checking that modules are installed *)

(** A Python [str] is a [string] whose characters are code points below
    256. *)

Definition ImportError : exc_class := UserDefined "ImportError" Exception.

Definition ResolutionError : exc_class :=
  UserDefined "ResolutionError" Exception.

(** [pkg_resources.DistributionNotFound] *)
Definition DistributionNotFound : exc_class :=
  UserDefined "DistributionNotFound" ResolutionError.

(** [bool(x)] for [x : str | None]. *)
Definition truthy_str (x : option string) : bool :=
  match x with
  | None => false
  | Some s => negb (String.eqb s EmptyString)
  end.

(** A [str] or a [list[str]]. *)
Inductive str_or_list : Type :=
| OneStr (s : string)
| StrList (l : list string).

Definition newline : string := String (Ascii.ascii_of_nat 10) EmptyString.

Section Modules.

(** Whether [importlib.util.find_spec(module)] is not [None], and
    [pkg_resources.get_distribution(module).version]; both may raise. *)
Variable find_spec : string -> result bool.
Variable get_distribution_version : string -> result string.

Definition not_installed_message (module : string) : string :=
  ("Module '" ++ module
   ++ "' is not installed. Please install it using 'pip install "
   ++ module ++ "'.")%string.

Definition version_mismatch_message (module installed_version version : string)
    : string :=
  ("Module '" ++ module ++ "' is installed but version " ++ installed_version
   ++ " does not match the required version " ++ version ++ ".")%string.

Definition no_version_message (module : string) : string :=
  ("Module '" ++ module
   ++ "' is installed, but no version information was found.")%string.

(** [if raise_error: raise ImportError(message)] and [return message]. *)
Definition report (raise_error : bool) (message : string)
    : result (option string) :=
  if raise_error then Exn (mk_exc ImportError message) else Ok (Some message).

Definition _check_module_installed (module : string) (version : option string)
    (raise_error : bool) : result (option string) :=
  match find_spec module with
  | Exn e => Exn e
  | Ok false => report raise_error (not_installed_message module)
  | Ok true =>
      match version with
      | Some v =>
          if truthy_str (Some v) then
            match get_distribution_version module with
            | Ok installed_version =>
                if negb (String.eqb installed_version v)
                then report raise_error
                       (version_mismatch_message module installed_version v)
                else Ok None
            | Exn e =>
                if isinstance e [DistributionNotFound]
                then report raise_error (no_version_message module)
                else Exn e
            end
          else Ok None
      | None => Ok None
      end
  end.

(** [version[idx] if version and idx < len(version) else None] *)
Definition mod_version (version : option (list string)) (idx : nat)
    : option string :=
  match version with
  | Some vs =>
      if negb (List.length vs =? 0)%nat && (idx <? List.length vs)%nat
      then nth_error vs idx
      else None
  | None => None
  end.

(** The [for idx, module in enumerate(modules)] loop, from index [idx],
    with the list [issues] as it is so far. *)
Fixpoint check_each (version : option (list string)) (idx : nat)
    (modules : list string) (issues : list string) : result (list string) :=
  match modules with
  | [] => Ok issues
  | module :: rest =>
      match _check_module_installed module (mod_version version idx) false with
      | Exn e => Exn e
      | Ok issue =>
          check_each version (S idx) rest
            (match issue with
             | Some message =>
                 if truthy_str issue then issues ++ [message] else issues
             | None => issues
             end)
      end
  end.

Definition check_module_installed (modules : str_or_list)
    (version : option str_or_list) (raise_error : bool)
    : result (option (list string)) :=
  let modules :=
    match modules with OneStr m => [m] | StrList l => l end in
  let version :=
    match version with
    | Some (OneStr v) => Some (repeat v (List.length modules))
    | Some (StrList l) => Some l
    | None => None
    end in
  match check_each version 0 modules [] with
  | Exn e => Exn e
  | Ok issues =>
      match issues with
      | _ :: _ =>
          if raise_error
          then Exn (mk_exc ImportError (String.concat newline issues))
          else Ok (Some issues)
      | [] => Ok None
      end
  end.

(** The issue of the module at [idx], as a list of no or one message. *)
Definition issue_at (version : option (list string)) (idx : nat)
    (module : string) : list string :=
  match _check_module_installed module (mod_version version idx) false with
  | Ok (Some message) => [message]
  | _ => []
  end.

(** The issues of [modules], numbered from [idx], in order. *)
Fixpoint issues_from (version : option (list string)) (idx : nat)
    (modules : list string) : list string :=
  match modules with
  | [] => []
  | module :: rest =>
      issue_at version idx module ++ issues_from version (S idx) rest
  end.

(** Lookups that fail only in the ways the code expects. *)
Definition lookups_behave : Prop :=
  (forall module, exists found, find_spec module = Ok found) /\
  (forall module e,
     get_distribution_version module = Exn e ->
     isinstance e [DistributionNotFound] = true).

End Modules.

(** The list of modules, and the list of versions, that
    [check_module_installed] works on. *)
Definition modules_of (modules : str_or_list) : list string :=
  match modules with OneStr m => [m] | StrList l => l end.

Definition versions_of (modules : str_or_list) (version : option str_or_list)
    : option (list string) :=
  match version with
  | Some (OneStr v) => Some (repeat v (List.length (modules_of modules)))
  | Some (StrList l) => Some l
  | None => None
  end.

(** A sample installation: [requests] 2.31.0 and [colorama] without
    version information. *)
Definition sample_find_spec (module : string) : result bool :=
  Ok (String.eqb module "requests" || String.eqb module "colorama").

Definition sample_version (module : string) : result string :=
  if String.eqb module "requests" then Ok "2.31.0"%string
  else Exn (mk_exc DistributionNotFound module).

(** ** The version of Chrome *)

Definition LookupError : exc_class := UserDefined "LookupError" Exception.

Definition IndexError : exc_class := UserDefined "IndexError" LookupError.

(** [ch.isspace()], for a code point below 256. *)
Definition isspace (ch : ascii) : bool :=
  let n := nat_of_ascii ch in
  ((9 <=? n) && (n <=? 13) || (28 <=? n) && (n <=? 32)
   || (n =? 133) || (n =? 160))%nat.

Fixpoint all_space (s : string) : bool :=
  match s with
  | EmptyString => true
  | String ch rest => isspace ch && all_space rest
  end.

Fixpoint no_space (s : string) : bool :=
  match s with
  | EmptyString => true
  | String ch rest => negb (isspace ch) && no_space rest
  end.

Fixpoint lstrip (s : string) : string :=
  match s with
  | EmptyString => EmptyString
  | String ch rest => if isspace ch then lstrip rest else s
  end.

Fixpoint rstrip (s : string) : string :=
  match s with
  | EmptyString => EmptyString
  | String ch rest =>
      match rstrip rest with
      | EmptyString => if isspace ch then EmptyString else String ch EmptyString
      | r => String ch r
      end
  end.

(** [s.strip()] *)
Definition str_strip (s : string) : string := rstrip (lstrip s).

(** [s.split()] from the middle of [s]: [word] is the part of the current
    word that has been read. *)
Fixpoint split_from (s : string) (word : string) : list string :=
  match s with
  | EmptyString =>
      match word with EmptyString => [] | _ => [word] end
  | String ch rest =>
      if isspace ch then
        match word with
        | EmptyString => split_from rest EmptyString
        | _ => word :: split_from rest EmptyString
        end
      else split_from rest (word ++ String ch EmptyString)
  end.

(** [s.split()] *)
Definition str_split (s : string) : list string := split_from s EmptyString.

(** A string whose last character is white space. *)
Definition ends_with_space (s : string) : Prop :=
  exists p ch, s = (p ++ String ch EmptyString)%string /\ isspace ch = true.

Section Chrome.

(** [run([chrome_path, '--version'], capture_output=True, text=True)]: the
    return code and the standard output, or an exception. *)
Variable run_version : string -> result (Z * string).

(** What [get_chrome_version_windows()], which reads the registry, does. *)
Variable get_chrome_version_windows : result (option string).

Definition get_chrome_version_unix (chrome_path : string)
    : result (option string) :=
  match run_version chrome_path with
  | Exn e => Exn e
  | Ok (returncode, stdout) =>
      if returncode =? 0 then
        match str_split (str_strip stdout) with
        | [] => Exn (mk_exc IndexError "list index out of range")
        | words => Ok (Some (last words EmptyString))
        end
      else Ok None
  end.

Definition get_chrome_version (system chrome_path : string)
    : result (option string) :=
  let body :=
    if String.eqb system "Windows" then get_chrome_version_windows
    else if String.eqb system "Darwin" || String.eqb system "Linux"
    then get_chrome_version_unix chrome_path
    else Exn (mk_exc ValueError ("Unsupported platform: " ++ system)) in
  match body with
  | Ok version => Ok version
  | Exn e =>
      if isinstance e [Exception]
      then Exn (mk_exc Exception ("Get chrome version error: " ++ exc_args e))
      else Exn e
  end.

End Chrome.

(** A Chrome that prints its name and version, one that prints a blank
    line, and one that fails. *)
Definition chrome_prints_version (chrome_path : string) : result (Z * string) :=
  Ok (0, ("Google Chrome 120.0.6099.109 " ++ newline)%string).

Definition chrome_prints_blank (chrome_path : string) : result (Z * string) :=
  Ok (0, newline).

Definition chrome_exits_with_1 (chrome_path : string) : result (Z * string) :=
  Ok (1, EmptyString).

(** ** Properties *)

(** *** Ranges, delays and logs *)

Lemma range_nil lo hi : hi <= lo -> range lo hi = [].
Proof.
  intros H. unfold range. replace (Z.to_nat (hi - lo)) with O by lia.
  reflexivity.
Qed.

Lemma range_cons lo hi : lo < hi -> range lo hi = lo :: range (lo + 1) hi.
Proof.
  intros H. unfold range.
  replace (Z.to_nat (hi - lo)) with (S (Z.to_nat (hi - (lo + 1)))) by lia.
  simpl. f_equal; [lia|].
  rewrite <- seq_shift, map_map. apply map_ext. intros i. lia.
Qed.

Lemma range_nth_error lo hi i a :
  nth_error (range lo hi) i = Some a -> a = lo + Z.of_nat i /\ a < hi.
Proof.
  revert lo. induction i as [|i IH]; intros lo H.
  - destruct (Z.lt_ge_cases lo hi) as [Hlt|Hge].
    + rewrite range_cons in H by exact Hlt. inversion H. lia.
    + rewrite range_nil in H by exact Hge. discriminate.
  - destruct (Z.lt_ge_cases lo hi) as [Hlt|Hge].
    + rewrite range_cons in H by exact Hlt. cbn [nth_error] in H.
      apply IH in H. lia.
    + rewrite range_nil in H by exact Hge. discriminate.
Qed.

(** Integers multiply exactly. *)
Lemma nth_delay_int (d b : Z) (j : nat) :
  nth_delay (PInt d) (PInt b) j = Some (PInt (d * b ^ Z.of_nat j)).
Proof.
  revert d. induction j as [|j IH]; intros d.
  - cbn. f_equal. f_equal. lia.
  - cbn [nth_delay py_mul]. rewrite IH. f_equal. f_equal.
    replace (Z.of_nat (S j)) with (Z.of_nat j + 1) by lia.
    rewrite Z.pow_add_r by lia. lia.
Qed.

Lemma nth_delay_S (d b : num) (j : nat) (x : num) :
  nth_delay d b j = Some x ->
  nth_delay d b (S j) = match py_mul x b with Ok y => Some y | Exn _ => None end.
Proof.
  revert d. induction j as [|j IH]; intros d H.
  - cbn in H. inversion H. subst. cbn. destruct (py_mul x b); reflexivity.
  - cbn [nth_delay] in H. change (nth_delay d b (S (S j)))
      with (match py_mul d b with
            | Ok d' => nth_delay d' b (S j)
            | Exn _ => None
            end).
    destruct (py_mul d b) as [d'|]; [|discriminate].
    apply IH. exact H.
Qed.

Section ScheduleLemmas.

Variable sleep_raises : num -> option exc.



Lemma backoff_delays_accepted d b n ds i x :
  backoff_delays sleep_raises d b n = Some ds ->
  nth_error ds i = Some x -> sleep_raises x = None.
Proof.
  revert d ds i. induction n as [|n IH]; intros d ds i H Hx.
  - inversion H. subst. destruct i; discriminate.
  - cbn [backoff_delays] in H.
    destruct (sleep_raises d) eqn:Hs; [discriminate|].
    destruct (py_mul d b) as [d'|] eqn:Hm; [|discriminate].
    destruct (backoff_delays sleep_raises d' b n) as [ds'|] eqn:E;
      [|discriminate].
    inversion H. subst ds. destruct i as [|i].
    + inversion Hx. subst. exact Hs.
    + eapply IH; [exact E|exact Hx].
Qed.

End ScheduleLemmas.

Section LogLemmas.

Context {V : Type}.

Lemma calls_app (t1 t2 : list (event V)) :
  calls (t1 ++ t2) = (calls t1 + calls t2)%nat.
Proof.
  induction t1 as [|[r|m|d] t1 IH]; simpl; rewrite ?IH; reflexivity.
Qed.

Lemma sleeps_app (t1 t2 : list (event V)) :
  sleeps (t1 ++ t2) = sleeps t1 ++ sleeps t2.
Proof.
  induction t1 as [|[r|m|d] t1 IH]; simpl; rewrite ?IH; reflexivity.
Qed.

Lemma logs_app (t1 t2 : list (event V)) :
  logs (t1 ++ t2) = logs t1 ++ logs t2.
Proof.
  induction t1 as [|[r|m|d] t1 IH]; simpl; rewrite ?IH; reflexivity.
Qed.

Lemma calls_alert_events c a : calls (alert_events (V:=V) c a) = O.
Proof.
  unfold alert_events. destruct (alert_threshold c) as [t|]; [|reflexivity].
  destruct (truthy_int (Some t) && (t <=? a)); reflexivity.
Qed.

Lemma sleeps_alert_events c a : sleeps (alert_events (V:=V) c a) = [].
Proof.
  unfold alert_events. destruct (alert_threshold c) as [t|]; [|reflexivity].
  destruct (truthy_int (Some t) && (t <=? a)); reflexivity.
Qed.

End LogLemmas.

Lemma set_world_same {St} (s : Sys St) : set_world s (world s) = s.
Proof. destruct s; reflexivity. Qed.

Lemma world_set_world {St} (s : Sys St) w : world (set_world s w) = w.
Proof. reflexivity. Qed.

Lemma set_world_twice {St} (s : Sys St) w1 w2 :
  set_world (set_world s w1) w2 = set_world s w2.
Proof. reflexivity. Qed.

(** Case analysis on the run of the rest of the loop, in the goal. *)
Ltac destruct_loop :=
  match goal with
  | |- context [attempt_loop ?f ?sr ?c ?st ?l ?d ?s] =>
      let r := fresh "r" in
      let s2 := fresh "s2" in
      let t2 := fresh "t2" in
      destruct (attempt_loop f sr c st l d s) as [[r s2] t2]
  end.

(** A float is falsy when it is one of the two zeros. *)
Lemma float_falsy_iff (f : float) :
  (f =? 0)%float = true <-> f = zero \/ f = neg_zero.
Proof.
  split.
  - rewrite eqb_spec. unfold SFeqb, SFcompare.
    destruct (Prim2SF f) as [sg|sg| |sg m e] eqn:E; cbn.
    + intros _. rewrite <- (SF2Prim_Prim2SF f), E.
      destruct sg; [right|left]; reflexivity.
    + destruct sg; discriminate.
    + discriminate.
    + destruct sg; discriminate.
  - intros [-> | ->]; reflexivity.
Qed.

Lemma truthy_false_iff (x : num) :
  truthy x = false
  <-> x = PInt 0 \/ x = PFloat zero \/ x = PFloat neg_zero.
Proof.
  destruct x as [z|f]; cbn [truthy]; rewrite negb_false_iff.
  - rewrite Z.eqb_eq. split.
    + intros ->. left. reflexivity.
    + intros [H|[H|H]]; congruence.
  - rewrite float_falsy_iff. split.
    + intros [-> | ->]; [right; left|right; right]; reflexivity.
    + intros [H|[H|H]]; [discriminate|left|right]; congruence.
Qed.

Lemma range_length lo hi : List.length (range lo hi) = Z.to_nat (hi - lo).
Proof. unfold range. rewrite length_map, length_seq. reflexivity. Qed.

Lemma range_last lo hi pre a : range lo hi = pre ++ [a] -> a = hi - 1.
Proof.
  intros H.
  assert (Hlen : List.length (range lo hi) = S (List.length pre)).
  { rewrite H, length_app. cbn. lia. }
  rewrite range_length in Hlen.
  assert (Hnth : nth_error (range lo hi) (List.length pre) = Some a).
  { rewrite H, nth_error_app2, Nat.sub_diag by lia. reflexivity. }
  apply range_nth_error in Hnth. lia.
Qed.

Lemma ends_at_tail m a rest : ends_at m (a :: rest) -> ends_at m rest.
Proof.
  intros H pre x Hrest. apply (H (a :: pre) x). rewrite Hrest. reflexivity.
Qed.

Lemma ends_at_single m a : ends_at m [a] -> a = m.
Proof. intros H. apply (H [] a). reflexivity. Qed.

Lemma ends_at_range lo hi : ends_at (hi - 1) (range lo hi).
Proof. intros pre a H. eapply range_last. exact H. Qed.

(** Once a delay can be multiplied by the backoff, the product can be as
    well: the first product of an integer and a float is a float, and a
    float times a float never raises. *)
Lemma py_mul_again (d b d1 : num) :
  py_mul d b = Ok d1 -> exists d2, py_mul d1 b = Ok d2.
Proof.
  destruct d as [x|f], b as [y|g]; cbn [py_mul].
  - intros H. inversion H. eexists. reflexivity.
  - destruct (float_of_int x); intros H; inversion H. eexists. reflexivity.
  - destruct (float_of_int y) eqn:E; intros H; inversion H.
    cbn [py_mul]. rewrite E. eexists. reflexivity.
  - intros H. inversion H. eexists. reflexivity.
Qed.

Section Properties.

Context {V St : Type} (func : World St -> result V * World St)
  (sleep_raises : num -> option exc).

Section Handler.

Variables (c : Closure) (start_time : float) (attempt : Z)
  (current_delay : num) (e : exc) (s : Sys St).

(** The last attempt re-raises at once. *)
Lemma handler_last :
  attempt = max_retries c ->
  handler (V:=V) sleep_raises c start_time attempt current_delay e s
  = (Exn e, s, []).
Proof.
  intros ->. unfold handler. rewrite Z.eqb_refl. reflexivity.
Qed.

(** Past the duration: alert, termination notice, re-raise. *)
Lemma handler_cutoff :
  attempt <> max_retries c ->
  duration_due c start_time (clock (world s)) = true ->
  handler (V:=V) sleep_raises c start_time attempt current_delay e s
  = (Exn e, s, alert_events c attempt ++ [EvLog MsgTerminate]).
Proof.
  intros Hne Hdue. unfold handler, duration_due, alert_events in *.
  apply Z.eqb_neq in Hne. rewrite Hne.
  destruct (max_duration c) as [m|]; [|discriminate].
  apply andb_true_iff in Hdue as [Ht Hle].
  unfold bind, when, time_time, log_func, raise, ret.
  destruct (alert_threshold c) as [t|];
    [destruct (truthy_int (Some t) && (t <=? attempt))|];
    rewrite Ht, Hle; reflexivity.
Qed.

(** What the handler does once the attempt is not the last and the
    duration is not over: the retry notice, then the sleep and the
    multiplication, either of which can raise. *)
Lemma handler_not_due :
  attempt <> max_retries c ->
  duration_due c start_time (clock (world s)) = false ->
  handler (V:=V) sleep_raises c start_time attempt current_delay e s
  = match sleep_raises current_delay with
    | Some ex =>
        (Exn ex, s, alert_events c attempt ++ [EvLog (MsgRetry attempt e)])
    | None =>
        (match py_mul current_delay (backoff c) with
         | Ok d' => Ok (inr d')
         | Exn ex => Exn ex
         end,
         set_world s (advance current_delay (world s)),
         alert_events c attempt
           ++ [EvLog (MsgRetry attempt e); EvSleep current_delay])
    end.
Proof.
  intros Hne Hdue. unfold handler, duration_due, alert_events in *.
  apply Z.eqb_neq in Hne. rewrite Hne.
  unfold bind, when, time_time, time_sleep, log_func, lift, raise, ret.
  destruct (alert_threshold c) as [t|];
    [destruct (truthy_int (Some t) && (t <=? attempt))|];
    (destruct (max_duration c) as [m|];
     [destruct (truthy_num (Some m)); simpl in Hdue;
      [rewrite Hdue|] |]);
    destruct (sleep_raises current_delay); try reflexivity;
    destruct (py_mul current_delay (backoff c)); reflexivity.
Qed.

(** Otherwise: alert, retry notice, sleep, and the next delay. *)
Lemma handler_retry d' :
  attempt <> max_retries c ->
  duration_due c start_time (clock (world s)) = false ->
  sleep_raises current_delay = None ->
  py_mul current_delay (backoff c) = Ok d' ->
  handler (V:=V) sleep_raises c start_time attempt current_delay e s
  = (Ok (inr d'),
     set_world s (advance current_delay (world s)),
     alert_events c attempt
       ++ [EvLog (MsgRetry attempt e); EvSleep current_delay]).
Proof.
  intros Hne Hdue Hs Hm. rewrite handler_not_due by assumption.
  rewrite Hs, Hm. reflexivity.
Qed.

(** [time.sleep] raises after the retry notice. *)
Lemma handler_bad_sleep ex :
  attempt <> max_retries c ->
  duration_due c start_time (clock (world s)) = false ->
  sleep_raises current_delay = Some ex ->
  handler (V:=V) sleep_raises c start_time attempt current_delay e s
  = (Exn ex, s, alert_events c attempt ++ [EvLog (MsgRetry attempt e)]).
Proof.
  intros Hne Hdue Hs. rewrite handler_not_due by assumption.
  rewrite Hs. reflexivity.
Qed.

(** The multiplication raises after the sleep. *)
Lemma handler_bad_mul ex :
  attempt <> max_retries c ->
  duration_due c start_time (clock (world s)) = false ->
  sleep_raises current_delay = None ->
  py_mul current_delay (backoff c) = Exn ex ->
  handler (V:=V) sleep_raises c start_time attempt current_delay e s
  = (Exn ex,
     set_world s (advance current_delay (world s)),
     alert_events c attempt
       ++ [EvLog (MsgRetry attempt e); EvSleep current_delay]).
Proof.
  intros Hne Hdue Hs Hm. rewrite handler_not_due by assumption.
  rewrite Hs, Hm. reflexivity.
Qed.

(** The five ways through the handler. *)
Lemma handler_cases :
  (attempt = max_retries c /\
   handler (V:=V) sleep_raises c start_time attempt current_delay e s
   = (Exn e, s, []))
  \/
  (attempt <> max_retries c /\
   duration_due c start_time (clock (world s)) = true /\
   handler (V:=V) sleep_raises c start_time attempt current_delay e s
   = (Exn e, s, alert_events c attempt ++ [EvLog MsgTerminate]))
  \/
  (exists d',
   attempt <> max_retries c /\
   duration_due c start_time (clock (world s)) = false /\
   sleep_raises current_delay = None /\
   py_mul current_delay (backoff c) = Ok d' /\
   handler (V:=V) sleep_raises c start_time attempt current_delay e s
   = (Ok (inr d'),
      set_world s (advance current_delay (world s)),
      alert_events c attempt
        ++ [EvLog (MsgRetry attempt e); EvSleep current_delay]))
  \/
  (exists ex,
   attempt <> max_retries c /\
   duration_due c start_time (clock (world s)) = false /\
   sleep_raises current_delay = Some ex /\
   handler (V:=V) sleep_raises c start_time attempt current_delay e s
   = (Exn ex, s,
      alert_events c attempt ++ [EvLog (MsgRetry attempt e)]))
  \/
  (exists ex,
   attempt <> max_retries c /\
   duration_due c start_time (clock (world s)) = false /\
   sleep_raises current_delay = None /\
   py_mul current_delay (backoff c) = Exn ex /\
   handler (V:=V) sleep_raises c start_time attempt current_delay e s
   = (Exn ex,
      set_world s (advance current_delay (world s)),
      alert_events c attempt
        ++ [EvLog (MsgRetry attempt e); EvSleep current_delay])).
Proof.
  destruct (Z.eq_dec attempt (max_retries c)) as [Heq|Hne].
  { left. split; [exact Heq|]. apply handler_last. exact Heq. }
  right.
  destruct (duration_due c start_time (clock (world s))) eqn:Hdue.
  { left. split; [exact Hne|]. split; [reflexivity|].
    apply handler_cutoff; assumption. }
  right.
  destruct (sleep_raises current_delay) as [ex|] eqn:Hs.
  { right. left. exists ex. repeat split; try assumption.
    apply handler_bad_sleep; assumption. }
  destruct (py_mul current_delay (backoff c)) as [d'|ex] eqn:Hm.
  - left. exists d'. repeat split; try assumption.
    apply handler_retry; assumption.
  - right. right. exists ex. repeat split; try assumption.
    apply handler_bad_mul; assumption.
Qed.

End Handler.

(** *** One turn of the loop *)

Section Step.

Variables (c : Closure) (start_time : float) (attempt : Z) (rest : list Z)
  (current_delay : num) (s : Sys St).

Lemma loop_step_ok v w :
  func (world s) = (Ok v, w) ->
  attempt_loop func sleep_raises c start_time (attempt :: rest) current_delay s
  = (Ok (Some v), set_world s w, [EvCall (Ok v)]).
Proof.
  intros Hf. simpl. unfold bind, try_except, call_func, ret.
  rewrite Hf. reflexivity.
Qed.

Lemma loop_step_uncaught e w :
  func (world s) = (Exn e, w) ->
  isinstance e (exceptions c) = false ->
  attempt_loop func sleep_raises c start_time (attempt :: rest) current_delay s
  = (Exn e, set_world s w, [EvCall (Exn e)]).
Proof.
  intros Hf Hi. simpl. unfold bind, try_except, call_func, ret.
  rewrite Hf, Hi. reflexivity.
Qed.

Lemma loop_step_raise e w e' s1 t1 :
  func (world s) = (Exn e, w) ->
  isinstance e (exceptions c) = true ->
  handler (V:=V) sleep_raises c start_time attempt current_delay e
    (set_world s w)
  = (Exn e', s1, t1) ->
  attempt_loop func sleep_raises c start_time (attempt :: rest) current_delay s
  = (Exn e', s1, EvCall (Exn e) :: t1).
Proof.
  intros Hf Hi Hh. simpl. unfold bind, try_except, call_func, ret.
  rewrite Hf, Hi, Hh. reflexivity.
Qed.

Lemma loop_step_continue e w d' s1 t1 :
  func (world s) = (Exn e, w) ->
  isinstance e (exceptions c) = true ->
  handler (V:=V) sleep_raises c start_time attempt current_delay e
    (set_world s w)
  = (Ok (inr d'), s1, t1) ->
  attempt_loop func sleep_raises c start_time (attempt :: rest) current_delay s
  = (let '(r, s2, t2) :=
       attempt_loop func sleep_raises c start_time rest d' s1 in
     (r, s2, EvCall (Exn e) :: t1 ++ t2)).
Proof.
  intros Hf Hi Hh. simpl. unfold bind, try_except, call_func, ret.
  rewrite Hf, Hi, Hh.
  destruct (attempt_loop func sleep_raises c start_time rest d' s1)
    as [[r s2] t2].
  reflexivity.
Qed.

End Step.

(** The wrapper reads the clock once and enters the loop. *)
Lemma wrapper_unfold (c : Closure) (s : Sys St) :
  wrapper func sleep_raises c s
  = attempt_loop func sleep_raises c (clock (world s))
      (range 1 (max_retries c + 1)) (delay c) s.
Proof.
  unfold wrapper, bind, time_time. destruct_loop. reflexivity.
Qed.

(** *** Runs of retried attempts *)


(** The attempts [a], [a + 1], ... before [max_retries] that fail with
    caught exceptions, each before the duration is over, each followed by
    a sleep that [time.sleep] takes and by a multiplication that succeeds:
    one call and one sleep each, and the loop goes on after them with the
    delay multiplied as many times. *)
Lemma loop_retries (c : Closure) (start_time : float) (ds : list num) :
  forall (a : Z) (d : num) (s : Sys St),
  backoff_delays sleep_raises d (backoff c) (List.length ds) = Some ds ->
  a + Z.of_nat (List.length ds) <= max_retries c ->
  (forall j, (j < List.length ds)%nat ->
     exists e, nth_call func (world s) ds j = Exn e
               /\ isinstance e (exceptions c) = true
               /\ duration_due c start_time
                    (clock (world_after_call func (world s) ds j)) = false) ->
  exists tr1 d',
    calls tr1 = List.length ds /\
    sleeps tr1 = ds /\
    nth_delay d (backoff c) (List.length ds) = Some d' /\
    attempt_loop func sleep_raises c start_time (range a (max_retries c + 1))
      d s
    = (let '(r, s2, t2) :=
         attempt_loop func sleep_raises c start_time
           (range (a + Z.of_nat (List.length ds)) (max_retries c + 1))
           d' (set_world s (call_world func (world s) ds)) in
       (r, s2, tr1 ++ t2)).
Proof.
  induction ds as [|d0 ds' IH]; intros a d s Hds Ha Hfail.
  - exists [], d. repeat split. cbn [call_world List.length].
    rewrite set_world_same, Z.add_0_r. destruct_loop. reflexivity.
  - cbn [List.length backoff_delays] in Hds.
    destruct (sleep_raises d) eqn:Hsl; [discriminate|].
    destruct (py_mul d (backoff c)) as [d1|] eqn:Hmul; [|discriminate].
    destruct (backoff_delays sleep_raises d1 (backoff c) (List.length ds'))
      as [ds1|] eqn:Hds1; [|discriminate].
    cbn [option_map] in Hds.
    assert (d0 = d /\ ds1 = ds') as [-> ->] by (split; congruence).
    clear Hds.
    destruct (Hfail O ltac:(cbn; lia)) as (e & He & Hcatch & Hdue).
    unfold nth_call, world_after_call in He, Hdue.
    cbn [firstn call_world] in He, Hdue.
    destruct (func (world s)) as [r0 w] eqn:Hf. cbn [fst snd] in He, Hdue.
    subst r0.
    assert (Hretry := handler_retry c start_time a d e (set_world s w) d1
              ltac:(cbn [List.length] in Ha; lia) Hdue Hsl Hmul).
    destruct (IH (a + 1) d1 (set_world s (advance d w)) Hds1)
      as (tr1 & d' & Hc & Hs & Hnd & Hloop).
    + cbn [List.length] in Ha. lia.
    + intros j Hj.
      destruct (Hfail (S j) ltac:(cbn; lia)) as (e' & He' & Hc' & Hd').
      exists e'. unfold nth_call, world_after_call in *.
      cbn [firstn call_world] in He', Hd'. rewrite Hf in He', Hd'.
      cbn [snd] in He', Hd'. rewrite world_set_world.
      repeat split; assumption.
    + exists (EvCall (Exn e) :: (alert_events c a
                ++ [EvLog (MsgRetry a e); EvSleep d]) ++ tr1), d'.
      split; [|split; [|split]].
      * cbn [calls List.length].
        rewrite !calls_app, calls_alert_events, Hc. reflexivity.
      * cbn [sleeps].
        rewrite !sleeps_app, sleeps_alert_events, Hs. reflexivity.
      * cbn [nth_delay List.length]. rewrite Hmul. exact Hnd.
      * rewrite range_cons by (cbn [List.length] in Ha; lia).
        rewrite (loop_step_continue c start_time a _ d s e w _ _ _ Hf Hcatch
                   Hretry).
        rewrite world_set_world, set_world_twice in Hloop |- *.
        rewrite Hloop.
        cbn [call_world List.length]. rewrite Hf. cbn [snd].
        replace (a + 1 + Z.of_nat (List.length ds'))
          with (a + Z.of_nat (S (List.length ds'))) by lia.
        destruct_loop. rewrite <- !app_assoc. cbn [app].
        rewrite <- ?app_assoc. reflexivity.
Qed.




(** C3. An exception that [exceptions] does not cover leaves the loop at
    the attempt that raised it, with the call as the only event of that
    attempt; when the first call raises it, the wrapper has called the
    function once, has not slept and has sent no message. *)
Theorem uncaught_error_propagates_at_once (c : Closure) (s : Sys St)
    (e : exc) (w : World St) :
  func (world s) = (Exn e, w) ->
  isinstance e (exceptions c) = false ->
  (forall start_time attempt rest current_delay,
     attempt_loop func sleep_raises c start_time (attempt :: rest)
       current_delay s
     = (Exn e, set_world s w, [EvCall (Exn e)])) /\
  (1 <= max_retries c ->
   exists tr,
     wrapper func sleep_raises c s = (Exn e, set_world s w, tr) /\
     calls tr = 1%nat /\ sleeps tr = [] /\ logs tr = []).
Proof.
  intros Hf Hi. split.
  - intros start_time attempt rest current_delay.
    apply loop_step_uncaught; assumption.
  - intros Hmax. exists [EvCall (Exn e)].
    rewrite wrapper_unfold, range_cons by lia.
    rewrite (loop_step_uncaught c _ 1 _ (delay c) s e w Hf Hi).
    repeat split.
Qed.

(** C4. [retry] takes [max_retries] and [delay] from the global dict as it
    is when [retry] is called whenever the argument is falsy ([None], the
    integer zero or a float zero), and takes any other argument as it is;
    the other arguments go into the closure unchanged, and the state is
    left alone. *)
Theorem retry_falsy_means_default (mr : option Z) (dl : option num)
    (b : num) (ex : list exc_class) (md : option num) (al : option Z)
    (s : Sys St) :
  exists cl,
    retry (V:=V) mr dl b ex md al s = (Ok cl, s, []) /\
    (mr = None \/ mr = Some 0 ->
     max_retries cl = cfg_max_retries (config s)) /\
    (forall z, mr = Some z -> z <> 0 -> max_retries cl = z) /\
    (dl = None \/ dl = Some (PInt 0) \/ dl = Some (PFloat zero)
     \/ dl = Some (PFloat neg_zero) ->
     delay cl = cfg_delay (config s)) /\
    (forall x, dl = Some x ->
       x <> PInt 0 -> x <> PFloat zero -> x <> PFloat neg_zero ->
       delay cl = x) /\
    backoff cl = b /\ exceptions cl = ex /\ max_duration cl = md /\
    alert_threshold cl = al.
Proof.
  eexists. split; [reflexivity|]. cbn [max_retries delay backoff exceptions
    max_duration alert_threshold].
  repeat split.
  - intros [-> | ->]; reflexivity.
  - intros z -> Hz. unfold or_int, truthy_int.
    apply Z.eqb_neq in Hz. rewrite Hz. reflexivity.
  - intros [-> | [-> | [-> | ->]]]; reflexivity.
  - intros x -> H1 H2 H3. unfold or_num, truthy_num.
    destruct (truthy x) eqn:E; [reflexivity|].
    apply truthy_false_iff in E. tauto.
Qed.

(** *** The wrapper does not read the global dict *)

Lemma handler_config (c : Closure) (cfg : RetryConfig) start_time attempt
    current_delay e (s : Sys St) :
  handler (V:=V) sleep_raises c start_time attempt current_delay e
    (with_config cfg s)
  = (let '(r, s2, t) :=
       handler (V:=V) sleep_raises c start_time attempt current_delay e s
     in (r, with_config cfg s2, t)).
Proof.
  unfold handler, bind, when, time_time, time_sleep, log_func, lift, raise,
    ret.
  destruct (attempt =? max_retries c); [reflexivity|].
  destruct (alert_threshold c) as [t|];
    [destruct (truthy_int (Some t) && (t <=? attempt))|];
    (destruct (max_duration c) as [m|];
     [destruct (truthy_num (Some m)); cbn [world with_config];
      [destruct (float_ge (clock (world s) - start_time) m)|] |]);
    try reflexivity;
    (destruct (sleep_raises current_delay); [reflexivity|]);
    destruct (py_mul current_delay (backoff c)); reflexivity.
Qed.

Lemma attempt_loop_config (c : Closure) (cfg : RetryConfig) start_time
    attempts :
  forall current_delay (s : Sys St),
  attempt_loop func sleep_raises c start_time attempts current_delay
    (with_config cfg s)
  = (let '(r, s2, t) :=
       attempt_loop func sleep_raises c start_time attempts current_delay s
     in (r, with_config cfg s2, t)).
Proof.
  induction attempts as [|attempt rest IH]; intros d s; [reflexivity|].
  cbn [attempt_loop]. unfold bind at 1 3.
  unfold try_except, bind, call_func, ret.
  cbn [world with_config].
  destruct (func (world s)) as [[v|e] w]; [reflexivity|].
  destruct (isinstance e (exceptions c)); [|reflexivity].
  change (set_world (with_config cfg s) w)
    with (with_config cfg (set_world s w)).
  rewrite handler_config.
  destruct (handler sleep_raises c start_time attempt d e (set_world s w))
    as [[[[v|d']|e'] s1] t1]; try reflexivity.
  rewrite IH. destruct_loop. reflexivity.
Qed.

(** C5. A closure made by [retry] keeps the [max_retries] and [delay]
    resolved from the dict as it was then; a later [setup_retry] changes
    the dict and nothing of what the wrapper does: the same result, the
    same events and the same world, in whatever state it is called. *)
Theorem setup_retry_after_retry_has_no_effect (mr : option Z)
    (dl : option num) (b : num) (ex : list exc_class) (md : option num)
    (al : option Z) (s0 : Sys St) (mr' : Z) (dl' : num) (s : Sys St) :
  exists cl s',
    retry (V:=V) mr dl b ex md al s0 = (Ok cl, s0, []) /\
    setup_retry (V:=V) mr' dl' s = (Ok tt, s', []) /\
    config s' = mk_config mr' dl' /\
    max_retries cl = or_int mr (cfg_max_retries (config s0)) /\
    delay cl = or_num dl (cfg_delay (config s0)) /\
    wrapper func sleep_raises cl s'
    = (let '(r, s2, t) := wrapper func sleep_raises cl s in
       (r, with_config (mk_config mr' dl') s2, t)).
Proof.
  eexists. eexists. split; [reflexivity|]. split; [reflexivity|].
  repeat split.
  rewrite !wrapper_unfold.
  apply (attempt_loop_config _ (mk_config mr' dl')).
Qed.

(** C9. A [max_retries] below 1 that is not zero goes into the closure as
    it is, and the wrapper then returns [None] with no call of the
    function, no sleep, no message and no exception. *)
Theorem negative_max_retries_returns_none (m : Z) (dl : option num)
    (b : num) (ex : list exc_class) (md : option num) (al : option Z)
    (s0 s : Sys St) :
  m < 1 -> m <> 0 ->
  exists cl,
    retry (V:=V) (Some m) dl b ex md al s0 = (Ok cl, s0, []) /\
    max_retries cl = m /\
    wrapper func sleep_raises cl s = (Ok None, s, []).
Proof.
  intros Hlt Hne. eexists. split; [reflexivity|].
  assert (Hm : or_int (Some m) (cfg_max_retries (config s0)) = m).
  { unfold or_int, truthy_int. apply Z.eqb_neq in Hne. rewrite Hne.
    reflexivity. }
  split; [exact Hm|].
  rewrite wrapper_unfold. cbn [max_retries]. rewrite Hm.
  rewrite range_nil by lia. reflexivity.
Qed.

(** C6. With a non-zero [max_duration = m]: when the attempts before
    attempt [k + 1] have failed with caught exceptions, each before [m]
    seconds had passed on the clock since the wrapper was entered, and
    each was followed by its sleep, and attempt [k + 1], which is not the
    last, fails with a caught exception [e] when [m] seconds or more have
    passed: the wrapper raises [e] itself. After the failed call come the
    alert, if the attempt has reached a non-zero [alert_threshold], and
    the termination notice, in this order, and nothing else: no sleep and
    no further call. *)
Theorem duration_cutoff_reraises (c : Closure) (s : Sys St) (m : num)
    (ds : list num) (e : exc) :
  max_duration c = Some m ->
  truthy m = true ->
  Z.of_nat (List.length ds) + 1 < max_retries c ->
  backoff_delays sleep_raises (delay c) (backoff c) (List.length ds)
  = Some ds ->
  (forall j, (j < List.length ds)%nat ->
     exists e', nth_call func (world s) ds j = Exn e'
       /\ isinstance e' (exceptions c) = true
       /\ float_ge
            (clock (world_after_call func (world s) ds j)
             - clock (world s))%float m = false) ->
  nth_call func (world s) ds (List.length ds) = Exn e ->
  isinstance e (exceptions c) = true ->
  float_ge
    (clock (world_after_call func (world s) ds (List.length ds))
     - clock (world s))%float m = true ->
  exists tr0 tr,
    wrapper func sleep_raises c s
    = (Exn e,
       set_world s (world_after_call func (world s) ds (List.length ds)),
       tr) /\
    tr = tr0 ++ EvCall (Exn e)
           :: alert_events c (Z.of_nat (List.length ds) + 1)
           ++ [EvLog MsgTerminate] /\
    calls tr0 = List.length ds /\
    sleeps tr0 = ds /\
    calls tr = S (List.length ds) /\
    sleeps tr = ds /\
    (forall t, alert_threshold c = Some t -> t <> 0 ->
       t <= Z.of_nat (List.length ds) + 1 ->
       tr = tr0 ++ [EvCall (Exn e); EvLog (MsgAlert t); EvLog MsgTerminate]) /\
    (truthy_int (alert_threshold c) = false ->
       tr = tr0 ++ [EvCall (Exn e); EvLog MsgTerminate]).
Proof.
  intros Hmd Hm Hlt Hds Hfail He Hcatch Hle.
  destruct (loop_retries c (clock (world s)) ds 1 (delay c) s Hds
              ltac:(lia)) as (tr1 & d' & Hc & Hs & _ & Hloop).
  { intros j Hj. destruct (Hfail j Hj) as (e' & He' & Hc' & Hd').
    exists e'. repeat split; try assumption.
    unfold duration_due. rewrite Hmd. cbn [truthy_num]. rewrite Hm, Hd'.
    reflexivity. }
  unfold nth_call in He. unfold world_after_call in Hle |- *.
  rewrite firstn_all in He, Hle |- *.
  set (w := call_world func (world s) ds) in *.
  destruct (func w) as [r0 w'] eqn:Hf. cbn [fst snd] in He, Hle |- *.
  subst r0.
  assert (Hdue : duration_due c (clock (world s))
                   (clock (world (set_world (set_world s w) w'))) = true).
  { unfold duration_due. rewrite Hmd, world_set_world. cbn [truthy_num].
    rewrite Hm, Hle. reflexivity. }
  exists tr1. eexists. split; [|split; [reflexivity|]].
  - rewrite wrapper_unfold, Hloop.
    rewrite range_cons by lia.
    rewrite (loop_step_raise c (clock (world s))
               (1 + Z.of_nat (List.length ds)) _ d' (set_world s w) e w' e
               (set_world (set_world s w) w') _ Hf Hcatch
               (handler_cutoff c (clock (world s))
                  (1 + Z.of_nat (List.length ds)) d' e
                  (set_world (set_world s w) w') ltac:(lia) Hdue)).
    rewrite set_world_twice.
    replace (1 + Z.of_nat (List.length ds))
      with (Z.of_nat (List.length ds) + 1) by lia.
    reflexivity.
  - split; [exact Hc|]. split; [exact Hs|]. split; [|split; [|split]].
    + rewrite calls_app. cbn [calls].
      rewrite calls_app, calls_alert_events, Hc. cbn. lia.
    + rewrite sleeps_app. cbn [sleeps].
      rewrite sleeps_app, sleeps_alert_events, Hs. cbn. apply app_nil_r.
    + intros t Ht Hne Hta. unfold alert_events. rewrite Ht.
      unfold truthy_int. apply Z.eqb_neq in Hne. rewrite Hne.
      apply Z.leb_le in Hta. rewrite Hta. reflexivity.
    + intros Hal. unfold alert_events.
      destruct (alert_threshold c) as [t|]; [|reflexivity].
      rewrite Hal. reflexivity.
Qed.

(** *** Which messages a run can contain *)

Lemma alert_events_allowed (c : Closure) (a : Z) :
  Forall (message_allowed c) (logs (alert_events (V:=V) c a)).
Proof.
  unfold alert_events. destruct (alert_threshold c) as [t|] eqn:Hal;
    [|constructor].
  destruct (truthy_int (Some t)) eqn:Ht; cbn [andb]; [|constructor].
  destruct (t <=? a); [|constructor].
  cbn [logs]. constructor; [|constructor].
  cbn [message_allowed]. split; [exact Hal|].
  unfold truthy_int in Ht. intros ->. discriminate.
Qed.

Lemma handler_logs_allowed (c : Closure) start_time attempt current_delay e
    (s : Sys St) r s' t :
  handler (V:=V) sleep_raises c start_time attempt current_delay e s = (r, s', t) ->
  Forall (message_allowed c) (logs t).
Proof.
  intros H.
  destruct (handler_cases c start_time attempt current_delay e s)
    as [[Heq Hh]|[(Hne & Hdue & Hh)|[(d' & Hne & Hdue & Hsl & Hmul & Hh)
       |[(ex & Hne & Hdue & Hsl & Hh)|(ex & Hne & Hdue & Hsl & Hmul & Hh)]]]];
    rewrite Hh in H; inversion H; subst; clear H.
  - constructor.
  - rewrite logs_app. apply Forall_app. split; [apply alert_events_allowed|].
    cbn [logs]. constructor; [|constructor]. cbn [message_allowed].
    unfold duration_due in Hdue.
    destruct (max_duration c) as [m|]; [|discriminate].
    apply andb_true_iff in Hdue. apply Hdue.
  - rewrite logs_app. apply Forall_app. split; [apply alert_events_allowed|].
    cbn [logs]. constructor; [exact I|constructor].
  - rewrite logs_app. apply Forall_app. split; [apply alert_events_allowed|].
    cbn [logs]. constructor; [exact I|constructor].
  - rewrite logs_app. apply Forall_app. split; [apply alert_events_allowed|].
    cbn [logs]. constructor; [exact I|constructor].
Qed.

(** What one turn of the loop amounts to, by what the call does. *)
Lemma loop_cons_cases (c : Closure) start_time attempt rest current_delay
    (s : Sys St) :
  (exists v w,
     func (world s) = (Ok v, w) /\
     attempt_loop func sleep_raises c start_time (attempt :: rest) current_delay s
     = (Ok (Some v), set_world s w, [EvCall (Ok v)]))
  \/
  (exists e w,
     func (world s) = (Exn e, w) /\
     isinstance e (exceptions c) = false /\
     attempt_loop func sleep_raises c start_time (attempt :: rest) current_delay s
     = (Exn e, set_world s w, [EvCall (Exn e)]))
  \/
  (exists e w e' s1 t1,
     func (world s) = (Exn e, w) /\
     isinstance e (exceptions c) = true /\
     handler (V:=V) sleep_raises c start_time attempt current_delay e (set_world s w)
     = (Exn e', s1, t1) /\
     attempt_loop func sleep_raises c start_time (attempt :: rest) current_delay s
     = (Exn e', s1, EvCall (Exn e) :: t1))
  \/
  (exists e w d' s1 t1,
     func (world s) = (Exn e, w) /\
     isinstance e (exceptions c) = true /\
     handler (V:=V) sleep_raises c start_time attempt current_delay e (set_world s w)
     = (Ok (inr d'), s1, t1) /\
     attempt_loop func sleep_raises c start_time (attempt :: rest) current_delay s
     = (let '(r, s2, t2) := attempt_loop func sleep_raises c start_time rest d' s1 in
        (r, s2, EvCall (Exn e) :: t1 ++ t2))).
Proof.
  destruct (func (world s)) as [[v|e] w] eqn:Hf.
  { left. exists v, w. split; [reflexivity|]. apply loop_step_ok. exact Hf. }
  right. destruct (isinstance e (exceptions c)) eqn:Hi.
  2:{ left. exists e, w. split; [reflexivity|]. split; [exact Hi|].
      apply loop_step_uncaught; assumption. }
  right.
  destruct (handler_cases c start_time attempt current_delay e
              (set_world s w))
    as [[Heq Hh]|[(Hne & Hdue & Hh)|[(d' & Hne & Hdue & Hsl & Hmul & Hh)
       |[(ex & Hne & Hdue & Hsl & Hh)|(ex & Hne & Hdue & Hsl & Hmul & Hh)]]]].
  - left. exists e, w, e, (set_world s w), []. repeat split; try assumption.
    eapply loop_step_raise; eassumption.
  - left. eexists e, w, e, (set_world s w), _.
    repeat split; try eassumption. eapply loop_step_raise; eassumption.
  - right. eexists e, w, _, _, _. repeat split; try eassumption.
    eapply loop_step_continue; eassumption.
  - left. eexists e, w, ex, (set_world s w), _.
    repeat split; try eassumption. eapply loop_step_raise; eassumption.
  - left. eexists e, w, ex, _, _.
    repeat split; try eassumption. eapply loop_step_raise; eassumption.
Qed.

Lemma loop_logs_allowed (c : Closure) start_time attempts :
  forall current_delay (s : Sys St) r s' tr,
  attempt_loop func sleep_raises c start_time attempts current_delay s = (r, s', tr) ->
  Forall (message_allowed c) (logs tr).
Proof.
  induction attempts as [|attempt rest IH]; intros d s r s' tr H.
  { inversion H. constructor. }
  destruct (loop_cons_cases c start_time attempt rest d s)
    as [(v & w & _ & Hl)|[(e & w & _ & _ & Hl)
       |[(e & w & e' & s1 & t1 & _ & _ & Hh & Hl)
        |(e & w & d' & s1 & t1 & _ & _ & Hh & Hl)]]];
    rewrite Hl in H.
  - inversion H. constructor.
  - inversion H. constructor.
  - inversion H; subst. cbn [logs]. eapply handler_logs_allowed. exact Hh.
  - destruct (attempt_loop func sleep_raises c start_time rest d' s1)
      as [[r2 s2] t2] eqn:Hrest.
    inversion H; subst. cbn [logs]. rewrite logs_app. apply Forall_app.
    split; [eapply handler_logs_allowed; exact Hh|].
    eapply IH. exact Hrest.
Qed.

(** *** Falsy [max_duration] and [alert_threshold] *)

Lemma handler_falsy_duration (c : Closure) (md : option num) start_time
    attempt current_delay e (s : Sys St) :
  truthy_num md = false ->
  handler (V:=V) sleep_raises (with_max_duration c md) start_time attempt current_delay e s
  = handler (V:=V) sleep_raises (with_max_duration c None) start_time attempt
      current_delay e s.
Proof.
  intros Hmd. unfold handler.
  cbn [with_max_duration max_retries alert_threshold max_duration backoff].
  destruct md as [m|]; [|reflexivity]. rewrite Hmd. reflexivity.
Qed.

Lemma handler_falsy_alert (c : Closure) (al : option Z) start_time attempt
    current_delay e (s : Sys St) :
  truthy_int al = false ->
  handler (V:=V) sleep_raises (with_alert_threshold c al) start_time attempt
    current_delay e s
  = handler (V:=V) sleep_raises (with_alert_threshold c None) start_time attempt
      current_delay e s.
Proof.
  intros Hal. unfold handler.
  cbn [with_alert_threshold max_retries alert_threshold max_duration backoff].
  destruct al as [t|]; [|reflexivity]. rewrite Hal. reflexivity.
Qed.

(** Two closures with the same [exceptions] whose handlers agree run the
    same loop. *)
Lemma attempt_loop_ext (c1 c2 : Closure) start_time :
  exceptions c1 = exceptions c2 ->
  (forall attempt d e (s : Sys St),
     handler (V:=V) sleep_raises c1 start_time attempt d e s
     = handler (V:=V) sleep_raises c2 start_time attempt d e s) ->
  forall attempts d (s : Sys St),
  attempt_loop func sleep_raises c1 start_time attempts d s
  = attempt_loop func sleep_raises c2 start_time attempts d s.
Proof.
  intros Hex Hh attempts.
  induction attempts as [|attempt rest IH]; intros d s; [reflexivity|].
  cbn [attempt_loop]. unfold bind, try_except, call_func, ret.
  rewrite Hex.
  destruct (func (world s)) as [[v|e] w]; [reflexivity|].
  destruct (isinstance e (exceptions c2)); [|reflexivity].
  rewrite Hh.
  destruct (handler sleep_raises c2 start_time attempt d e (set_world s w))
    as [[[[v|d']|e'] s1] t1]; try reflexivity.
  rewrite IH. reflexivity.
Qed.

Lemma wrapper_logs_allowed (c : Closure) (s : Sys St) :
  Forall (message_allowed c) (logs (snd (wrapper func sleep_raises c s))).
Proof.
  rewrite wrapper_unfold.
  destruct (attempt_loop func sleep_raises c (clock (world s))
              (range 1 (max_retries c + 1)) (delay c) s)
    as [[r s'] tr] eqn:Hrun.
  cbn [snd]. eapply loop_logs_allowed. exact Hrun.
Qed.

(** C10. A zero [max_duration] (the integer or a float zero) is
    [max_duration = None] and [alert_threshold = 0] is
    [alert_threshold = None]: the wrapper does the same in every state, so
    a zero duration never stops a run (no termination notice is sent) and
    a zero threshold never alerts. *)
Theorem zero_duration_and_zero_threshold_are_unset (c : Closure)
    (s : Sys St) :
  (forall z, z = PInt 0 \/ z = PFloat zero \/ z = PFloat neg_zero ->
     wrapper func sleep_raises (with_max_duration c (Some z)) s
     = wrapper func sleep_raises (with_max_duration c None) s
     /\
     ~ In MsgTerminate
         (logs (snd (wrapper func sleep_raises
                       (with_max_duration c (Some z)) s))))
  /\
  wrapper func sleep_raises (with_alert_threshold c (Some 0)) s
  = wrapper func sleep_raises (with_alert_threshold c None) s
  /\
  (forall t,
     ~ In (MsgAlert t)
         (logs (snd (wrapper func sleep_raises
                       (with_alert_threshold c (Some 0)) s)))).
Proof.
  split; [|split].
  - intros z Hz. apply truthy_false_iff in Hz. split.
    + rewrite !wrapper_unfold. apply attempt_loop_ext; [reflexivity|].
      intros. apply handler_falsy_duration. exact Hz.
    + intros Hin.
      pose proof (wrapper_logs_allowed (with_max_duration c (Some z)) s)
        as Hall.
      rewrite Forall_forall in Hall. specialize (Hall _ Hin).
      cbn in Hall. congruence.
  - rewrite !wrapper_unfold. apply attempt_loop_ext; [reflexivity|].
    intros. apply handler_falsy_alert. reflexivity.
  - intros t Hin.
    pose proof (wrapper_logs_allowed (with_alert_threshold c (Some 0)) s)
      as Hall.
    rewrite Forall_forall in Hall. specialize (Hall _ Hin).
    cbn in Hall. destruct Hall as [Ht Hne]. inversion Ht. subst t.
    apply Hne. reflexivity.
Qed.

(** *** Alerts, attempt by attempt *)

Lemma alert_events_in (c : Closure) (a t0 : Z) :
  In (EvLog (MsgAlert t0)) (alert_events (V:=V) c a)
  <-> alert_threshold c = Some t0 /\ t0 <> 0 /\ t0 <= a.
Proof.
  unfold alert_events, truthy_int.
  destruct (alert_threshold c) as [t|].
  2:{ split; [intros []|intros [H _]; discriminate]. }
  destruct (Z.eqb_spec t 0) as [Hz|Hz]; cbn [negb andb].
  { split; [intros []|]. intros (H & Hne & _). inversion H. lia. }
  destruct (Z.leb_spec t a) as [Hle|Hgt].
  - split.
    + intros [H|[]]. inversion H. subst t0. repeat split; assumption.
    + intros (H & _ & _). inversion H. left. reflexivity.
  - split; [intros []|]. intros (H & _ & Hle). inversion H. lia.
Qed.

Lemma handler_alert_iff (c : Closure) start_time attempt current_delay e
    (s : Sys St) r s' t (t0 : Z) :
  handler (V:=V) sleep_raises c start_time attempt current_delay e s = (r, s', t) ->
  (In (EvLog (MsgAlert t0)) t
   <-> alert_threshold c = Some t0 /\ t0 <> 0 /\ t0 <= attempt
       /\ attempt <> max_retries c).
Proof.
  intros H.
  destruct (handler_cases c start_time attempt current_delay e s)
    as [[Heq Hh]|[(Hne & Hdue & Hh)|[(d' & Hne & Hdue & Hsl & Hmul & Hh)
       |[(ex & Hne & Hdue & Hsl & Hh)|(ex & Hne & Hdue & Hsl & Hmul & Hh)]]]];
    rewrite Hh in H; inversion H; subst r s' t; clear H.
  - split; [intros []|]. intros (_ & _ & _ & Hne). contradiction.
  - rewrite in_app_iff, alert_events_in. split.
    + intros [(H1 & H2 & H3)|[H|[]]]; [tauto|discriminate].
    + intros (H1 & H2 & H3 & _). left. tauto.
  - rewrite in_app_iff, alert_events_in. split.
    + intros [(H1 & H2 & H3)|[H|[H|[]]]]; [tauto|discriminate|discriminate].
    + intros (H1 & H2 & H3 & _). left. tauto.
  - rewrite in_app_iff, alert_events_in. split.
    + intros [(H1 & H2 & H3)|[H|[]]]; [tauto|discriminate].
    + intros (H1 & H2 & H3 & _). left. tauto.
  - rewrite in_app_iff, alert_events_in. split.
    + intros [(H1 & H2 & H3)|[H|[H|[]]]]; [tauto|discriminate|discriminate].
    + intros (H1 & H2 & H3 & _). left. tauto.
Qed.

Lemma handler_no_calls (c : Closure) start_time attempt current_delay e
    (s : Sys St) r s' t :
  handler (V:=V) sleep_raises c start_time attempt current_delay e s = (r, s', t) ->
  calls t = O.
Proof.
  intros H.
  destruct (handler_cases c start_time attempt current_delay e s)
    as [[Heq Hh]|[(Hne & Hdue & Hh)|[(d' & Hne & Hdue & Hsl & Hmul & Hh)
       |[(ex & Hne & Hdue & Hsl & Hh)|(ex & Hne & Hdue & Hsl & Hmul & Hh)]]]];
    rewrite Hh in H; inversion H; subst; clear H;
    rewrite ?calls_app, ?calls_alert_events; reflexivity.
Qed.

Lemma until_call_app (t t2 : list (event V)) :
  calls t = O -> until_call (t ++ t2) = t ++ until_call t2.
Proof.
  induction t as [|[r|m|d] t IH]; cbn; intros H;
    [reflexivity|discriminate| |]; rewrite IH by exact H; reflexivity.
Qed.

Lemma attempts_of_app (t t2 : list (event V)) :
  calls t = O -> attempts_of (t ++ t2) = attempts_of t2.
Proof.
  induction t as [|[r|m|d] t IH]; cbn; intros H;
    [reflexivity|discriminate| |]; apply IH; exact H.
Qed.

Lemma loop_until_call (c : Closure) start_time attempts current_delay
    (s : Sys St) r s' tr :
  attempt_loop func sleep_raises c start_time attempts current_delay s = (r, s', tr) ->
  until_call tr = [].
Proof.
  destruct attempts as [|attempt rest]; intros H.
  { inversion H. reflexivity. }
  destruct (loop_cons_cases c start_time attempt rest current_delay s)
    as [(v & w & _ & Hl)|[(e & w & _ & _ & Hl)
       |[(e & w & e' & s1 & t1 & _ & _ & _ & Hl)
        |(e & w & d' & s1 & t1 & _ & _ & _ & Hl)]]];
    rewrite Hl in H.
  - inversion H. reflexivity.
  - inversion H. reflexivity.
  - inversion H. reflexivity.
  - destruct (attempt_loop func sleep_raises c start_time rest d' s1) as [[r2 s2] t2].
    inversion H. reflexivity.
Qed.

(** In a run of the loop, the attempt behind the [i]-th call is the [i]-th
    element of the range, and the events after a caught failure contain
    the alert exactly when the threshold is non-zero, reached, and the
    attempt is not the last. *)
Lemma loop_attempts_alert (c : Closure) start_time (t0 : Z) attempts :
  forall current_delay (s : Sys St) r s' tr,
  attempt_loop func sleep_raises c start_time attempts current_delay s = (r, s', tr) ->
  forall i e evs,
  nth_error (attempts_of tr) i = Some (Exn e, evs) ->
  isinstance e (exceptions c) = true ->
  exists a,
    nth_error attempts i = Some a /\
    (In (EvLog (MsgAlert t0)) evs
     <-> alert_threshold c = Some t0 /\ t0 <> 0 /\ t0 <= a
         /\ a <> max_retries c).
Proof.
  induction attempts as [|attempt rest IH];
    intros d s r s' tr H i e evs Hnth Hcatch.
  { inversion H; subst. destruct i; discriminate. }
  destruct (loop_cons_cases c start_time attempt rest d s)
    as [(v & w & _ & Hl)|[(e0 & w & _ & Hi & Hl)
       |[(e0 & w & e' & s1 & t1 & _ & _ & Hh & Hl)
        |(e0 & w & d' & s1 & t1 & _ & _ & Hh & Hl)]]];
    rewrite Hl in H.
  - inversion H; subst. destruct i as [|[|i]]; discriminate.
  - inversion H; subst. destruct i as [|[|i]]; try discriminate.
    inversion Hnth; subst. congruence.
  - inversion H; subst. cbn [attempts_of] in Hnth.
    pose proof (handler_no_calls _ _ _ _ _ _ _ _ _ Hh) as Hnc.
    rewrite <- (app_nil_r t1) in Hnth.
    rewrite until_call_app, attempts_of_app in Hnth by exact Hnc.
    cbn [until_call attempts_of] in Hnth. rewrite app_nil_r in Hnth.
    destruct i as [|[|i]]; try discriminate.
    inversion Hnth; subst. exists attempt. split; [reflexivity|].
    eapply handler_alert_iff. exact Hh.
  - destruct (attempt_loop func sleep_raises c start_time rest d' s1)
      as [[r2 s2] t2] eqn:Hrest.
    inversion H; subst. cbn [attempts_of] in Hnth.
    pose proof (handler_no_calls _ _ _ _ _ _ _ _ _ Hh) as Hnc.
    rewrite until_call_app, attempts_of_app in Hnth by exact Hnc.
    rewrite (loop_until_call _ _ _ _ _ _ _ _ Hrest), app_nil_r in Hnth.
    destruct i as [|i].
    + inversion Hnth; subst. exists attempt. split; [reflexivity|].
      eapply handler_alert_iff. exact Hh.
    + cbn [nth_error] in Hnth |- *. eapply IH; eassumption.
Qed.

(** Leaving the alert check out changes the log only by the alerts. *)
Lemma handler_alert_erasure (c : Closure) (al : option Z) start_time attempt
    current_delay e (s : Sys St) :
  handler (V:=V) sleep_raises (with_alert_threshold c None) start_time attempt
    current_delay e s
  = (let '(r, s2, t) :=
       handler (V:=V) sleep_raises (with_alert_threshold c al) start_time attempt
         current_delay e s in
     (r, s2, without_alerts t)).
Proof.
  unfold handler, bind, when, time_time, time_sleep, log_func, lift, raise,
    ret.
  cbn [with_alert_threshold max_retries alert_threshold max_duration backoff].
  destruct (attempt =? max_retries c); [reflexivity|].
  destruct al as [t|];
    [destruct (truthy_int (Some t) && (t <=? attempt))|];
    (destruct (max_duration c) as [m|];
     [destruct (truthy_num (Some m));
      [destruct (float_ge (clock (world s) - start_time) m)|] |]);
    try reflexivity;
    (destruct (sleep_raises current_delay); [reflexivity|]);
    destruct (py_mul current_delay (backoff c)); reflexivity.
Qed.

Lemma attempt_loop_alert_erasure (c : Closure) (al : option Z) start_time
    attempts :
  forall current_delay (s : Sys St),
  attempt_loop func sleep_raises (with_alert_threshold c None) start_time attempts
    current_delay s
  = (let '(r, s2, t) :=
       attempt_loop func sleep_raises (with_alert_threshold c al) start_time attempts
         current_delay s in
     (r, s2, without_alerts t)).
Proof.
  induction attempts as [|attempt rest IH]; intros d s; [reflexivity|].
  cbn [attempt_loop]. unfold bind at 1 3.
  unfold try_except, bind, call_func, ret.
  cbn [with_alert_threshold exceptions].
  destruct (func (world s)) as [[v|e] w]; [reflexivity|].
  destruct (isinstance e (exceptions c)); [|reflexivity].
  rewrite (handler_alert_erasure c al).
  destruct (handler sleep_raises (with_alert_threshold c al) start_time attempt d e
              (set_world s w)) as [[[[v|d']|e'] s1] t1];
    try rewrite IH; try destruct_loop;
    unfold without_alerts; rewrite ?filter_app; reflexivity.
Qed.

Lemma with_alert_threshold_same (c : Closure) :
  with_alert_threshold c (alert_threshold c) = c.
Proof. destruct c; reflexivity. Qed.

(** C7, amended. With a non-zero [alert_threshold = t], the alert follows a
    caught failure exactly at the attempts numbered from [t] up to
    [max_retries - 1]: the last attempt re-raises before the alert check.
    The alert changes nothing else: without the threshold the wrapper
    returns or raises the same, leaves the same state, and its log is the
    same log with the alerts taken out. *)
Theorem alert_from_threshold_until_last_attempt (c : Closure) (t : Z)
    (s : Sys St) :
  alert_threshold c = Some t ->
  t <> 0 ->
  (forall i e evs,
     nth_error (attempts_of (snd (wrapper func sleep_raises c s))) i = Some (Exn e, evs) ->
     isinstance e (exceptions c) = true ->
     (In (EvLog (MsgAlert t)) evs
      <-> t <= Z.of_nat (S i) < max_retries c))
  /\
  wrapper func sleep_raises (with_alert_threshold c None) s
  = (let '(r, s', tr) := wrapper func sleep_raises c s in (r, s', without_alerts tr)).
Proof.
  intros Hal Hne. split.
  - intros i e evs Hnth Hcatch. rewrite wrapper_unfold in Hnth.
    destruct (attempt_loop func sleep_raises c (clock (world s))
                (range 1 (max_retries c + 1)) (delay c) s)
      as [[r s'] tr] eqn:Hrun.
    cbn [snd] in Hnth.
    destruct (loop_attempts_alert c _ t _ _ _ _ _ _ Hrun i e evs Hnth Hcatch)
      as (a & Ha & Hiff).
    apply range_nth_error in Ha. rewrite Hiff. split.
    + intros (_ & _ & Hle & Hmax). lia.
    + intros Hle. repeat split; try assumption; lia.
  - rewrite !wrapper_unfold.
    rewrite (attempt_loop_alert_erasure c (alert_threshold c)).
    rewrite with_alert_threshold_same. reflexivity.
Qed.

(** ** What every run of the wrapper satisfies *)

(** The handler by its tests. *)
Lemma handler_by_tests (c : Closure) start_time attempt current_delay e
    (s : Sys St) :
  handler (V:=V) sleep_raises c start_time attempt current_delay e s
  = if attempt =? max_retries c then (Exn e, s, [])
    else if duration_due c start_time (clock (world s))
    then (Exn e, s, alert_events c attempt ++ [EvLog MsgTerminate])
    else
      match sleep_raises current_delay with
      | Some ex =>
          (Exn ex, s, alert_events c attempt ++ [EvLog (MsgRetry attempt e)])
      | None =>
          (match py_mul current_delay (backoff c) with
           | Ok d' => Ok (inr d')
           | Exn ex => Exn ex
           end,
           set_world s (advance current_delay (world s)),
           alert_events c attempt
             ++ [EvLog (MsgRetry attempt e); EvSleep current_delay])
      end.
Proof.
  destruct (Z.eqb_spec attempt (max_retries c)) as [Heq|Hne].
  { apply handler_last. exact Heq. }
  destruct (duration_due c start_time (clock (world s))) eqn:Hdue.
  { apply handler_cutoff; assumption. }
  apply handler_not_due; assumption.
Qed.

(** What the handler has done when it lets the loop go on. *)
Lemma handler_continue_inv (c : Closure) start_time attempt current_delay e
    (s : Sys St) x s1 t1 :
  handler (V:=V) sleep_raises c start_time attempt current_delay e s
  = (Ok x, s1, t1) ->
  attempt <> max_retries c /\
  sleep_raises current_delay = None /\
  (exists d', py_mul current_delay (backoff c) = Ok d' /\ x = inr d') /\
  s1 = set_world s (advance current_delay (world s)) /\
  sleeps t1 = [current_delay] /\
  calls t1 = O.
Proof.
  rewrite handler_by_tests.
  destruct (Z.eqb_spec attempt (max_retries c)) as [Heq|Hne]; [discriminate|].
  destruct (duration_due c start_time (clock (world s))); [discriminate|].
  destruct (sleep_raises current_delay) eqn:Hsl; [discriminate|].
  destruct (py_mul current_delay (backoff c)) as [d'|] eqn:Hmul;
    [|discriminate].
  intros H. inversion H; subst; clear H.
  repeat split; try assumption.
  - exists d'. split; reflexivity.
  - rewrite sleeps_app, sleeps_alert_events. reflexivity.
  - rewrite calls_app, calls_alert_events. reflexivity.
Qed.

(** What the handler has done when it raises: it re-raises the caught
    exception, or [time.sleep] has raised, or the multiplication has. *)
Lemma handler_raise_inv (c : Closure) start_time attempt current_delay e
    (s : Sys St) e' s1 t1 :
  handler (V:=V) sleep_raises c start_time attempt current_delay e s
  = (Exn e', s1, t1) ->
  calls t1 = O /\
  ((e' = e /\ s1 = s /\ sleeps t1 = [])
   \/
   (attempt <> max_retries c /\ sleep_raises current_delay = Some e'
    /\ s1 = s /\ sleeps t1 = [])
   \/
   (attempt <> max_retries c /\ sleep_raises current_delay = None
    /\ py_mul current_delay (backoff c) = Exn e'
    /\ s1 = set_world s (advance current_delay (world s))
    /\ (exists t0, t1 = t0 ++ [EvSleep current_delay] /\ sleeps t0 = []))).
Proof.
  rewrite handler_by_tests.
  destruct (Z.eqb_spec attempt (max_retries c)) as [Heq|Hne].
  { intros H. inversion H; subst. split; [reflexivity|]. left.
    repeat split. }
  destruct (duration_due c start_time (clock (world s))).
  { intros H. inversion H; subst.
    rewrite sleeps_app, calls_app, sleeps_alert_events, calls_alert_events.
    split; [reflexivity|]. left. repeat split. }
  destruct (sleep_raises current_delay) as [ex|] eqn:Hsl.
  { intros H. inversion H; subst.
    rewrite sleeps_app, calls_app, sleeps_alert_events, calls_alert_events.
    split; [reflexivity|]. right. left. repeat split. exact Hne. }
  destruct (py_mul current_delay (backoff c)) as [d'|ex] eqn:Hmul;
    [discriminate|].
  intros H. inversion H; subst.
  rewrite calls_app, calls_alert_events.
  split; [reflexivity|]. right. right. repeat split; try assumption.
  exists (alert_events c attempt ++ [EvLog (MsgRetry attempt e)]). split.
  - rewrite <- app_assoc. reflexivity.
  - rewrite sleeps_app, sleeps_alert_events. reflexivity.
Qed.

Section Loop.

Variables (c : Closure) (start_time : float).

(** The cases of one turn of the loop, for a run that is given. *)
Ltac loop_cases H attempt rest d s :=
  let Hl := fresh "Hl" in
  let Hh := fresh "Hh" in
  destruct (loop_cons_cases c start_time attempt rest d s)
    as [(?v & ?w & _ & Hl)|[(?e0 & ?w & _ & _ & Hl)
       |[(?e0 & ?w & ?e' & ?s1 & ?t1 & _ & _ & Hh & Hl)
        |(?e0 & ?w & ?d' & ?s1 & ?t1 & _ & _ & Hh & Hl)]]];
    rewrite Hl in H; clear Hl;
    [ | | apply handler_raise_inv in Hh | apply handler_continue_inv in Hh ].

Lemma loop_calls_le attempts :
  forall d (s : Sys St) r s' tr,
  attempt_loop func sleep_raises c start_time attempts d s = (r, s', tr) ->
  (calls tr <= List.length attempts)%nat.
Proof.
  induction attempts as [|attempt rest IH]; intros d s r s' tr H.
  { inversion H. cbn. lia. }
  loop_cases H attempt rest d s.
  - inversion H. cbn. lia.
  - inversion H. cbn. lia.
  - destruct Hh as (Hc & _). inversion H; subst. cbn. lia.
  - destruct Hh as (_ & _ & (d1 & _ & Hx) & _ & _ & Hc).
    inversion Hx; subst d'.
    destruct (attempt_loop func sleep_raises c start_time rest _ s1)
      as [[r2 s2] t2] eqn:Hrest.
    inversion H; subst. apply IH in Hrest.
    cbn [calls List.length]. rewrite calls_app. lia.
Qed.

Lemma loop_calls_pos attempt rest :
  forall d (s : Sys St) r s' tr,
  attempt_loop func sleep_raises c start_time (attempt :: rest) d s
  = (r, s', tr) ->
  (1 <= calls tr)%nat.
Proof.
  intros d s r s' tr H. loop_cases H attempt rest d s.
  - inversion H. cbn. lia.
  - inversion H. cbn. lia.
  - inversion H. cbn. lia.
  - destruct (attempt_loop func sleep_raises c start_time rest d' s1)
      as [[r2 s2] t2].
    inversion H. cbn. lia.
Qed.

(** There is at most one sleep per call. *)
Lemma loop_sleeps_le attempts :
  forall d (s : Sys St) r s' tr,
  attempt_loop func sleep_raises c start_time attempts d s = (r, s', tr) ->
  (List.length (sleeps tr) <= calls tr)%nat.
Proof.
  induction attempts as [|attempt rest IH]; intros d s r s' tr H.
  { inversion H. cbn. lia. }
  loop_cases H attempt rest d s.
  - inversion H. cbn. lia.
  - inversion H. cbn. lia.
  - destruct Hh as (Hc & [(_ & _ & Hs)|[(_ & _ & _ & Hs)
                         |(_ & _ & _ & _ & t0 & -> & Hs)]]);
      inversion H; subst; cbn [sleeps calls];
      rewrite ?sleeps_app, ?Hs; cbn; lia.
  - destruct Hh as (_ & _ & (d1 & _ & Hx) & _ & Hs & Hc).
    inversion Hx; subst d'.
    destruct (attempt_loop func sleep_raises c start_time rest _ s1)
      as [[r2 s2] t2] eqn:Hrest.
    inversion H; subst. apply IH in Hrest.
    cbn [sleeps calls]. rewrite sleeps_app, calls_app, Hs, Hc.
    cbn [List.length app]. lia.
Qed.

(** When the multiplications succeed, every sleep is followed by a call. *)
Lemma loop_sleeps_lt attempts :
  ends_at (max_retries c) attempts ->
  forall d (s : Sys St) r s' tr,
  (exists d1, py_mul d (backoff c) = Ok d1) ->
  attempt_loop func sleep_raises c start_time attempts d s = (r, s', tr) ->
  (List.length (sleeps tr) <= Nat.pred (calls tr))%nat.
Proof.
  induction attempts as [|attempt rest IH]; intros Hend d s r s' tr Hmul H.
  { inversion H. cbn. lia. }
  loop_cases H attempt rest d s.
  - inversion H. cbn. lia.
  - inversion H. cbn. lia.
  - destruct Hh as (Hc & [(_ & _ & Hs)|[(_ & _ & _ & Hs)
                         |(_ & _ & Hbad & _)]]).
    + inversion H; subst. cbn [sleeps calls]. rewrite Hs. cbn. lia.
    + inversion H; subst. cbn [sleeps calls]. rewrite Hs. cbn. lia.
    + destruct Hmul as [d1 Hd1]. congruence.
  - destruct Hh as (Hne & _ & (d1 & Hd1 & Hx) & _ & Hs & Hc).
    inversion Hx; subst d'.
    destruct rest as [|attempt' rest'].
    { exfalso. apply Hne. apply ends_at_single. exact Hend. }
    destruct (attempt_loop func sleep_raises c start_time (attempt' :: rest')
                _ s1) as [[r2 s2] t2] eqn:Hrest.
    inversion H; subst.
    pose proof (loop_calls_pos _ _ _ _ _ _ _ Hrest) as Hpos.
    apply IH in Hrest;
      [|eapply ends_at_tail; exact Hend|eapply py_mul_again; exact Hd1].
    cbn [sleeps calls]. rewrite sleeps_app, calls_app, Hs, Hc.
    cbn [List.length app]. lia.
Qed.

(** The sleeps of a run are the delays of the schedule, in order. *)
Lemma loop_sleeps_schedule attempts :
  forall d (s : Sys St) r s' tr,
  attempt_loop func sleep_raises c start_time attempts d s = (r, s', tr) ->
  forall i x, nth_error (sleeps tr) i = Some x ->
  nth_delay d (backoff c) i = Some x /\ sleep_raises x = None.
Proof.
  induction attempts as [|attempt rest IH]; intros d s r s' tr H i x Hx.
  { inversion H; subst. destruct i; discriminate. }
  loop_cases H attempt rest d s.
  - inversion H; subst. destruct i; discriminate.
  - inversion H; subst. destruct i; discriminate.
  - destruct Hh as (Hc & [(_ & _ & Hs)|[(_ & _ & _ & Hs)
                         |(_ & Hsl & _ & _ & t0 & -> & Hs)]]);
      inversion H; subst; cbn [sleeps] in Hx;
      rewrite ?sleeps_app, ?Hs in Hx.
    + destruct i; discriminate.
    + destruct i; discriminate.
    + cbn in Hx. destruct i as [|[|i]]; try discriminate.
      inversion Hx; subst. split; [reflexivity|exact Hsl].
  - destruct Hh as (_ & Hsl & (d1 & Hd1 & Hy) & _ & Hs & _).
    inversion Hy; subst d'.
    destruct (attempt_loop func sleep_raises c start_time rest _ s1)
      as [[r2 s2] t2] eqn:Hrest.
    inversion H; subst. cbn [sleeps] in Hx. rewrite sleeps_app, Hs in Hx.
    destruct i as [|i].
    + inversion Hx; subst. split; [reflexivity|exact Hsl].
    + cbn [app nth_error] in Hx. cbn [nth_delay]. rewrite Hd1.
      eapply IH; eassumption.
Qed.

Lemma loop_not_none attempts :
  ends_at (max_retries c) attempts ->
  attempts <> [] ->
  forall d (s : Sys St) r s' tr,
  attempt_loop func sleep_raises c start_time attempts d s = (r, s', tr) ->
  r <> Ok None.
Proof.
  induction attempts as [|attempt rest IH]; intros Hend Hne d s r s' tr H.
  { contradiction. }
  loop_cases H attempt rest d s.
  - inversion H. discriminate.
  - inversion H. discriminate.
  - inversion H. discriminate.
  - destruct Hh as (Hnm & _ & (d1 & _ & Hx) & _). inversion Hx; subst d'.
    destruct (attempt_loop func sleep_raises c start_time rest _ s1)
      as [[r2 s2] t2] eqn:Hrest.
    inversion H; subst. eapply IH; try exact Hrest.
    + eapply ends_at_tail. exact Hend.
    + intros ->. apply Hnm. apply ends_at_single. exact Hend.
Qed.

Lemma loop_ok_origin attempts :
  forall d (s : Sys St) v s' tr,
  attempt_loop func sleep_raises c start_time attempts d s
  = (Ok (Some v), s', tr) ->
  exists tr0, tr = tr0 ++ [EvCall (Ok v)].
Proof.
  induction attempts as [|attempt rest IH]; intros d s v s' tr H.
  { inversion H. }
  loop_cases H attempt rest d s.
  - inversion H; subst. exists []. reflexivity.
  - inversion H.
  - inversion H.
  - destruct Hh as (_ & _ & (d1 & _ & Hx) & _). inversion Hx; subst d'.
    destruct (attempt_loop func sleep_raises c start_time rest _ s1)
      as [[r2 s2] t2] eqn:Hrest.
    inversion H; subst. apply IH in Hrest. destruct Hrest as [tr0 ->].
    exists (EvCall (Exn e0) :: t1 ++ tr0).
    cbn [app]. rewrite <- app_assoc. reflexivity.
Qed.


End Loop.

(** An exception is caught by [(Exception,)] exactly when its class
    derives from [Exception]. *)
Lemma isinstance_Exception (e : exc) :
  isinstance e [Exception] = true <-> In Exception (mro (exc_type e)).
Proof.
  unfold isinstance, issubclass. cbn [existsb].
  rewrite orb_false_r, existsb_exists. split.
  - intros (a & Hin & Ha).
    destruct (exc_class_eq_dec a Exception) as [->|]; [exact Hin|discriminate].
  - intros Hin. exists Exception. split; [exact Hin|].
    destruct (exc_class_eq_dec Exception Exception); [reflexivity|congruence].
Qed.

(** A failed first call that is retried: notice, sleep, and a second call. *)
Lemma first_failure_retried (c : Closure) (s : Sys St) (e : exc)
    (w : World St) (d' : num) :
  func (world s) = (Exn e, w) ->
  isinstance e (exceptions c) = true ->
  2 <= max_retries c ->
  duration_due c (clock (world s)) (clock w) = false ->
  sleep_raises (delay c) = None ->
  py_mul (delay c) (backoff c) = Ok d' ->
  exists r s' tr2,
    wrapper func sleep_raises c s
    = (r, s',
       EvCall (Exn e)
         :: alert_events c 1
         ++ [EvLog (MsgRetry 1 e); EvSleep (delay c)] ++ tr2) /\
    (1 <= calls tr2)%nat.
Proof.
  intros Hf Hin Hmax Hdue Hsl Hmul.
  rewrite wrapper_unfold. rewrite range_cons by lia.
  rewrite (loop_step_continue c (clock (world s)) 1 _ (delay c) s e w d'
             _ _ Hf Hin
             (handler_retry c (clock (world s)) 1 (delay c) e (set_world s w)
                d' ltac:(lia) Hdue Hsl Hmul)).
  rewrite range_cons by lia.
  match goal with
  | |- context [attempt_loop ?f ?sr ?c ?st ?l ?d ?s1] =>
      destruct (attempt_loop f sr c st l d s1) as [[r2 s2] t2] eqn:Hrest
  end.
  exists r2, s2, t2. split.
  - rewrite <- app_assoc. reflexivity.
  - eapply loop_calls_pos. exact Hrest.
Qed.

(** C8, amended. A [retry] called without [exceptions] builds a wrapper
    that catches [(Exception,)]: an exception of the function is caught
    exactly when its class derives from [Exception]. When the first call
    raises one that does not, as [SystemExit], [KeyboardInterrupt] and
    [GeneratorExit] do not, the wrapper raises it after that one call,
    with no sleep and no message. When the first call raises one that
    does, with a second attempt left, the duration not over, a delay that
    [time.sleep] takes and a multiplication that succeeds, the wrapper
    sends the retry notice, sleeps and calls the function again. *)
Theorem default_exceptions_catch_subclasses_of_Exception (kw : RetryKwargs)
    (s0 s : Sys St) (e : exc) (w : World St) :
  kw_exceptions kw = None ->
  func (world s) = (Exn e, w) ->
  exists cl,
    retry_call (V:=V) kw s0 = (Ok cl, s0, []) /\
    exceptions cl = [Exception] /\
    (isinstance e (exceptions cl) = true
     <-> In Exception (mro (exc_type e))) /\
    (forall msg,
       isinstance (mk_exc SystemExit msg) (exceptions cl) = false /\
       isinstance (mk_exc KeyboardInterrupt msg) (exceptions cl) = false /\
       isinstance (mk_exc GeneratorExit msg) (exceptions cl) = false /\
       isinstance (mk_exc BaseException msg) (exceptions cl) = false) /\
    (1 <= max_retries cl ->
     ~ In Exception (mro (exc_type e)) ->
     wrapper func sleep_raises cl s
     = (Exn e, set_world s w, [EvCall (Exn e)])) /\
    (2 <= max_retries cl ->
     In Exception (mro (exc_type e)) ->
     duration_due cl (clock (world s)) (clock w) = false ->
     sleep_raises (delay cl) = None ->
     forall d', py_mul (delay cl) (backoff cl) = Ok d' ->
     exists r s' tr2,
       wrapper func sleep_raises cl s
       = (r, s',
          EvCall (Exn e)
            :: alert_events cl 1
            ++ [EvLog (MsgRetry 1 e); EvSleep (delay cl)] ++ tr2) /\
       (1 <= calls tr2)%nat).
Proof.
  intros Hkw Hf. unfold retry_call, retry. rewrite Hkw.
  match goal with
  | |- exists cl, (Ok ?c, _, _) = _ /\ _ => exists c; set (cl := c)
  end.
  assert (Hex : exceptions cl = [Exception]) by reflexivity.
  clearbody cl.
  split; [reflexivity|]. split; [exact Hex|]. rewrite Hex.
  split; [apply isinstance_Exception|].
  split; [intros msg; repeat split|]. split.
  - intros Hmax Hnot. rewrite wrapper_unfold, range_cons by lia.
    apply loop_step_uncaught; [exact Hf|]. rewrite Hex.
    destruct (isinstance e [Exception]) eqn:Hi; [|reflexivity].
    apply isinstance_Exception in Hi. contradiction.
  - intros Hmax Hin Hdue Hsl d' Hmul.
    apply isinstance_Exception in Hin. rewrite <- Hex in Hin.
    eapply first_failure_retried; eassumption.
Qed.

(** The wrapper calls the function at most [max_retries] times and sleeps
    at most once per call; when [delay] can be multiplied by [backoff],
    every sleep is followed by a call: it sleeps only between two calls. *)
Theorem wrapper_calls_and_sleeps_bounded (c : Closure) (s : Sys St) :
  (calls (snd (wrapper func sleep_raises c s))
   <= Z.to_nat (max_retries c))%nat /\
  (List.length (sleeps (snd (wrapper func sleep_raises c s)))
   <= calls (snd (wrapper func sleep_raises c s)))%nat /\
  ((exists d1, py_mul (delay c) (backoff c) = Ok d1) ->
   (List.length (sleeps (snd (wrapper func sleep_raises c s)))
    <= Nat.pred (calls (snd (wrapper func sleep_raises c s))))%nat).
Proof.
  rewrite wrapper_unfold.
  destruct (attempt_loop func sleep_raises c (clock (world s))
              (range 1 (max_retries c + 1)) (delay c) s)
    as [[r s'] tr] eqn:Hrun.
  cbn [snd]. split; [|split].
  - apply loop_calls_le in Hrun. rewrite range_length in Hrun. lia.
  - eapply loop_sleeps_le. exact Hrun.
  - intros Hmul. eapply loop_sleeps_lt; [|exact Hmul|exact Hrun].
    replace (max_retries c) with (max_retries c + 1 - 1) at 1 by lia.
    apply ends_at_range.
Qed.

(** Whatever the function does, the sleeps of a run are the first values
    of the backoff sequence, in order: the [i]-th, from 0, lasts [delay]
    multiplied [i] times by [backoff] in the arithmetic of the language,
    which is [delay * backoff ^ i] exactly when both are integers, and
    [time.sleep] has taken it. *)
Theorem wrapper_sleeps_follow_backoff (c : Closure) (s : Sys St) (i : nat)
    (x : num) :
  nth_error (sleeps (snd (wrapper func sleep_raises c s))) i = Some x ->
  nth_delay (delay c) (backoff c) i = Some x /\
  sleep_raises x = None /\
  (forall d b, delay c = PInt d -> backoff c = PInt b ->
     x = PInt (d * b ^ Z.of_nat i)).
Proof.
  rewrite wrapper_unfold.
  destruct (attempt_loop func sleep_raises c (clock (world s))
              (range 1 (max_retries c + 1)) (delay c) s)
    as [[r s'] tr] eqn:Hrun.
  cbn [snd]. intros Hx.
  destruct (loop_sleeps_schedule c _ _ _ _ _ _ _ Hrun i x Hx) as [Hnd Hsl].
  split; [exact Hnd|]. split; [exact Hsl|].
  intros d b Hd Hb. rewrite Hd, Hb, nth_delay_int in Hnd. congruence.
Qed.

(** The wrapper returns [None] on its own exactly when [max_retries] is
    below 1, and then it has done nothing at all. *)
Theorem wrapper_returns_none_iff (c : Closure) (s : Sys St) :
  (fst (fst (wrapper func sleep_raises c s)) = Ok None
   <-> max_retries c < 1) /\
  (max_retries c < 1 -> wrapper func sleep_raises c s = (Ok None, s, [])).
Proof.
  assert (Hnone : max_retries c < 1 ->
                  wrapper func sleep_raises c s = (Ok None, s, [])).
  { intros Hlt. rewrite wrapper_unfold, range_nil by lia. reflexivity. }
  split; [|exact Hnone]. split.
  - intros Hr. destruct (Z.lt_ge_cases (max_retries c) 1) as [Hlt|Hge];
      [exact Hlt|exfalso].
    rewrite wrapper_unfold in Hr.
    destruct (attempt_loop func sleep_raises c (clock (world s))
                (range 1 (max_retries c + 1)) (delay c) s)
      as [[r s'] tr] eqn:Hrun.
    cbn [fst] in Hr. revert Hr. eapply loop_not_none; [| |exact Hrun].
    + replace (max_retries c) with (max_retries c + 1 - 1) at 1 by lia.
      apply ends_at_range.
    + rewrite range_cons by lia. discriminate.
  - intros Hlt. rewrite (Hnone Hlt). reflexivity.
Qed.


(** A value that the wrapper returns is the value of the function's last
    call, and that call is the last event. *)
Theorem wrapper_returns_last_call_value (c : Closure) (s : Sys St) (v : V)
    (s' : Sys St) (tr : list (event V)) :
  wrapper func sleep_raises c s = (Ok (Some v), s', tr) ->
  exists tr0, tr = tr0 ++ [EvCall (Ok v)].
Proof.
  intros Hrun. rewrite wrapper_unfold in Hrun.
  eapply loop_ok_origin. exact Hrun.
Qed.

(** A [delay] that [time.sleep] refuses turns the first retry into the
    error of [time.sleep]: after one call, the alert if it is due and the
    retry notice, the wrapper raises that error instead of the function's,
    and does not call the function again. *)
Theorem refused_delay_raises_sleep_error (c : Closure) (s : Sys St)
    (e ex : exc) (w : World St) :
  func (world s) = (Exn e, w) ->
  isinstance e (exceptions c) = true ->
  1 < max_retries c ->
  sleep_raises (delay c) = Some ex ->
  duration_due c (clock (world s)) (clock w) = false ->
  wrapper func sleep_raises c s
  = (Exn ex, set_world s w,
     EvCall (Exn e) :: alert_events c 1 ++ [EvLog (MsgRetry 1 e)]).
Proof.
  intros Hf Hcatch Hmax Hsl Hdue.
  rewrite wrapper_unfold, range_cons by lia.
  apply (loop_step_raise c (clock (world s)) 1 _ (delay c) s e w
           ex (set_world s w) _ Hf Hcatch).
  apply handler_bad_sleep.
  - lia.
  - exact Hdue.
  - exact Hsl.
Qed.

(** After [setup_retry(m, d)], a [retry] without its own [max_retries] and
    [delay] takes exactly [m] and [d], zero or negative values included;
    when [m] is below 1 the wrapper it builds returns [None] without
    calling the function. *)
Theorem setup_retry_then_retry (m : Z) (d : num) (mr : option Z)
    (dl : option num) (b : num) (ex : list exc_class) (md : option num)
    (al : option Z) (s0 : Sys St) :
  truthy_int mr = false ->
  truthy_num dl = false ->
  exists s1 cl,
    setup_retry (V:=V) m d s0 = (Ok tt, s1, []) /\
    retry (V:=V) mr dl b ex md al s1 = (Ok cl, s1, []) /\
    max_retries cl = m /\ delay cl = d /\
    (m < 1 -> forall s, wrapper func sleep_raises cl s = (Ok None, s, [])).
Proof.
  intros Hmr Hdl. eexists. eexists.
  split; [reflexivity|]. split; [reflexivity|].
  cbn [max_retries delay config cfg_max_retries cfg_delay].
  assert (Hm : or_int mr m = m).
  { unfold or_int. destruct mr; [rewrite Hmr|]; reflexivity. }
  assert (Hd : or_num dl d = d).
  { unfold or_num. destruct dl; [rewrite Hdl|]; reflexivity. }
  split; [exact Hm|]. split; [exact Hd|].
  intros Hlt s. rewrite wrapper_unfold. cbn [max_retries]. rewrite Hm.
  rewrite range_nil by lia. reflexivity.
Qed.

End Properties.

(** ** The properties on sample runs *)





(** C3 on a [ValueError] under [exceptions = (OSError,)]. *)
Lemma uncaught_error_propagates_at_once_witness :
  (always_fails (world fresh)
   = (Exn failure, {| clock := 0.125; opstate := 1%nat |})
   /\ isinstance failure (exceptions three_attempts_on_OSError) = false
   /\ 1 <= max_retries three_attempts_on_OSError)
  /\
  exists tr,
    wrapper always_fails cpython_sleep_raises three_attempts_on_OSError fresh
    = (Exn failure,
       set_world fresh {| clock := 0.125; opstate := 1%nat |}, tr) /\
    calls tr = 1%nat /\ sleeps tr = [] /\ logs tr = [].
Proof.
  split.
  - repeat split. discriminate.
  - apply (uncaught_error_propagates_at_once always_fails
             cpython_sleep_raises three_attempts_on_OSError fresh failure
             {| clock := 0.125; opstate := 1%nat |}).
    + reflexivity.
    + reflexivity.
    + discriminate.
Defined.

(** C6 on five attempts within one second: the first call ends an eighth
    of a second after the start and is retried after a sleep of one
    second; the second ends after a second and a quarter, past the
    threshold of the alert. *)
Lemma duration_cutoff_reraises_witness :
  (max_duration five_attempts_within_1_second = Some (PInt 1)
   /\ truthy (PInt 1) = true
   /\ Z.of_nat (List.length [PFloat 1]) + 1
      < max_retries five_attempts_within_1_second
   /\ backoff_delays cpython_sleep_raises
        (delay five_attempts_within_1_second)
        (backoff five_attempts_within_1_second) (List.length [PFloat 1])
      = Some [PFloat 1]
   /\ float_ge
        (clock (world_after_call always_fails (world fresh) [PFloat 1] 0)
         - clock (world fresh))%float (PInt 1) = false
   /\ nth_call always_fails (world fresh) [PFloat 1] 1 = Exn failure
   /\ isinstance failure (exceptions five_attempts_within_1_second) = true
   /\ float_ge
        (clock (world_after_call always_fails (world fresh) [PFloat 1] 1)
         - clock (world fresh))%float (PInt 1) = true)
  /\
  exists tr0 tr,
    wrapper always_fails cpython_sleep_raises five_attempts_within_1_second
      fresh
    = (Exn failure, set_world fresh {| clock := 1.25; opstate := 2%nat |},
       tr) /\
    tr = tr0 ++ EvCall (Exn failure)
           :: alert_events five_attempts_within_1_second 2
           ++ [EvLog MsgTerminate] /\
    calls tr0 = 1%nat /\
    sleeps tr0 = [PFloat 1] /\
    calls tr = 2%nat /\
    sleeps tr = [PFloat 1] /\
    (forall t, alert_threshold five_attempts_within_1_second = Some t ->
       t <> 0 -> t <= 2 ->
       tr = tr0 ++ [EvCall (Exn failure); EvLog (MsgAlert t);
                    EvLog MsgTerminate]) /\
    (truthy_int (alert_threshold five_attempts_within_1_second) = false ->
       tr = tr0 ++ [EvCall (Exn failure); EvLog MsgTerminate]).
Proof.
  split.
  - repeat split.
  - apply (duration_cutoff_reraises always_fails cpython_sleep_raises
             five_attempts_within_1_second fresh (PInt 1) [PFloat 1]
             failure).
    + reflexivity.
    + reflexivity.
    + reflexivity.
    + reflexivity.
    + intros j Hj. destruct j as [|j]; [|cbn in Hj; lia].
      exists failure. repeat split.
    + reflexivity.
    + reflexivity.
    + reflexivity.
Defined.

(** The run of that sample. *)
Lemma duration_cutoff_sample_run :
  wrapper always_fails cpython_sleep_raises five_attempts_within_1_second
    fresh
  = (Exn failure, set_world fresh {| clock := 1.25; opstate := 2%nat |},
     [EvCall (Exn failure); EvLog (MsgRetry 1 failure); EvSleep (PFloat 1);
      EvCall (Exn failure); EvLog (MsgAlert 2); EvLog MsgTerminate]).
Proof. reflexivity. Qed.

(** C7, as stated, on five attempts that all fail, with alerts from the
    second: the fifth call fails with a caught exception and no alert
    follows it. *)
Lemma alert_missing_after_last_failed_attempt :
  nth_error
    (attempts_of
       (snd (wrapper always_fails cpython_sleep_raises
               five_attempts_alert_from_2 fresh)))
    4
  = Some (Exn failure, [])
  /\
  ~ alert_at_every_failure_from 2 (exceptions five_attempts_alert_from_2)
      (snd (wrapper always_fails cpython_sleep_raises
              five_attempts_alert_from_2 fresh)).
Proof.
  split; [reflexivity|].
  intros H. specialize (H 4%nat failure [] eq_refl eq_refl).
  destruct H as [H _]. apply H. discriminate.
Qed.

(** C7, amended, on the same run. *)
Lemma alert_from_threshold_until_last_attempt_witness :
  (alert_threshold five_attempts_alert_from_2 = Some 2 /\ 2 <> 0)
  /\
  (forall i e evs,
     nth_error
       (attempts_of
          (snd (wrapper always_fails cpython_sleep_raises
                  five_attempts_alert_from_2 fresh))) i
     = Some (Exn e, evs) ->
     isinstance e (exceptions five_attempts_alert_from_2) = true ->
     (In (EvLog (MsgAlert 2)) evs
      <-> 2 <= Z.of_nat (S i) < max_retries five_attempts_alert_from_2))
  /\
  logs (snd (wrapper always_fails cpython_sleep_raises
               five_attempts_alert_from_2 fresh))
  = [MsgRetry 1 failure; MsgAlert 2; MsgRetry 2 failure; MsgAlert 2;
     MsgRetry 3 failure; MsgAlert 2; MsgRetry 4 failure].
Proof.
  split; [split; [reflexivity|discriminate]|].
  split; [|reflexivity].
  apply (alert_from_threshold_until_last_attempt always_fails
           cpython_sleep_raises five_attempts_alert_from_2 2 fresh);
    [reflexivity|discriminate].
Defined.

(** C8, as stated: a wrapper built by [retry()] with nothing passed does
    not retry a [KeyboardInterrupt]. *)
Lemma keyboard_interrupt_is_not_retried :
  exists cl,
    retry_call (V:=nat) no_kwargs fresh = (Ok cl, fresh, []) /\
    max_retries cl = 3 /\
    isinstance interrupt (exceptions cl) = false /\
    wrapper interrupted cpython_sleep_raises cl fresh
    = (Exn interrupt, set_world fresh {| clock := 0; opstate := 1%nat |},
       [EvCall (Exn interrupt)]).
Proof.
  eexists. split; [reflexivity|]. repeat split.
Qed.

(** C8, amended, on [retry()] with nothing passed and a [ValueError]. *)
Lemma default_exceptions_catch_subclasses_of_Exception_witness :
  (kw_exceptions no_kwargs = None
   /\ always_fails (world fresh)
      = (Exn failure, {| clock := 0.125; opstate := 1%nat |}))
  /\
  exists cl,
    retry_call (V:=nat) no_kwargs fresh = (Ok cl, fresh, []) /\
    exceptions cl = [Exception] /\
    (isinstance failure (exceptions cl) = true
     <-> In Exception (mro (exc_type failure))) /\
    (forall msg,
       isinstance (mk_exc SystemExit msg) (exceptions cl) = false /\
       isinstance (mk_exc KeyboardInterrupt msg) (exceptions cl) = false /\
       isinstance (mk_exc GeneratorExit msg) (exceptions cl) = false /\
       isinstance (mk_exc BaseException msg) (exceptions cl) = false) /\
    (1 <= max_retries cl ->
     ~ In Exception (mro (exc_type failure)) ->
     wrapper always_fails cpython_sleep_raises cl fresh
     = (Exn failure, set_world fresh {| clock := 0.125; opstate := 1%nat |},
        [EvCall (Exn failure)])) /\
    (2 <= max_retries cl ->
     In Exception (mro (exc_type failure)) ->
     duration_due cl (clock (world fresh)) 0.125 = false ->
     cpython_sleep_raises (delay cl) = None ->
     forall d', py_mul (delay cl) (backoff cl) = Ok d' ->
     exists r s' tr2,
       wrapper always_fails cpython_sleep_raises cl fresh
       = (r, s',
          EvCall (Exn failure)
            :: alert_events cl 1
            ++ [EvLog (MsgRetry 1 failure); EvSleep (delay cl)] ++ tr2) /\
       (1 <= calls tr2)%nat).
Proof.
  split; [split; reflexivity|].
  apply (default_exceptions_catch_subclasses_of_Exception always_fails
           cpython_sleep_raises no_kwargs fresh fresh failure
           {| clock := 0.125; opstate := 1%nat |}); reflexivity.
Defined.

(** C9 at [max_retries = -2]. *)
Lemma negative_max_retries_returns_none_witness :
  (-2 < 1 /\ -2 <> 0)
  /\
  exists cl,
    retry (V:=nat) (Some (-2)) None default_backoff default_exceptions None
      None fresh
    = (Ok cl, fresh, []) /\
    max_retries cl = -2 /\
    wrapper always_fails cpython_sleep_raises cl fresh = (Ok None, fresh, []).
Proof.
  split; [split; [reflexivity|discriminate]|].
  apply (negative_max_retries_returns_none always_fails cpython_sleep_raises
           (-2) None default_backoff default_exceptions None None fresh fresh);
    [reflexivity|discriminate].
Defined.

(** A run whose second sleep lasts two seconds. *)
Lemma wrapper_sleeps_follow_backoff_witness :
  nth_error
    (sleeps (snd (wrapper always_fails cpython_sleep_raises three_attempts
                    fresh))) 1
  = Some (PFloat 2)
  /\
  (nth_delay (delay three_attempts) (backoff three_attempts) 1
   = Some (PFloat 2) /\
   cpython_sleep_raises (PFloat 2) = None /\
   (forall d b, delay three_attempts = PInt d ->
      backoff three_attempts = PInt b ->
      PFloat 2 = PInt (d * b ^ Z.of_nat 1))).
Proof.
  split; [reflexivity|].
  apply (wrapper_sleeps_follow_backoff always_fails cpython_sleep_raises
           three_attempts fresh 1 (PFloat 2)).
  reflexivity.
Defined.


(** A run that succeeds at the second attempt. *)
Lemma wrapper_returns_last_call_value_witness :
  fst (fst (wrapper (fails_until 2 42) cpython_sleep_raises three_attempts
              fresh))
  = Ok (Some 42%nat)
  /\
  exists tr0,
    snd (wrapper (fails_until 2 42) cpython_sleep_raises three_attempts fresh)
    = tr0 ++ [EvCall (Ok 42%nat)].
Proof.
  split; [reflexivity|].
  apply (wrapper_returns_last_call_value (fails_until 2 42)
           cpython_sleep_raises three_attempts fresh 42%nat
           (snd (fst (wrapper (fails_until 2 42) cpython_sleep_raises
                        three_attempts fresh)))
           (snd (wrapper (fails_until 2 42) cpython_sleep_raises
                   three_attempts fresh))).
  reflexivity.
Defined.

(** A delay of minus one second: the [ValueError] of [time.sleep]. *)
Lemma refused_delay_raises_sleep_error_witness :
  (always_fails (world fresh)
   = (Exn failure, {| clock := 0.125; opstate := 1%nat |})
   /\ isinstance failure (exceptions three_attempts_negative_delay) = true
   /\ 1 < max_retries three_attempts_negative_delay
   /\ cpython_sleep_raises (delay three_attempts_negative_delay)
      = Some sleep_negative
   /\ duration_due three_attempts_negative_delay (clock (world fresh)) 0.125
      = false)
  /\
  wrapper always_fails cpython_sleep_raises three_attempts_negative_delay
    fresh
  = (Exn sleep_negative,
     set_world fresh {| clock := 0.125; opstate := 1%nat |},
     [EvCall (Exn failure); EvLog (MsgRetry 1 failure)]).
Proof.
  split.
  - repeat split.
  - apply (refused_delay_raises_sleep_error always_fails cpython_sleep_raises
             three_attempts_negative_delay fresh failure sleep_negative
             {| clock := 0.125; opstate := 1%nat |});
      reflexivity.
Defined.

(** [setup_retry(0, 1)] and then [retry()]. *)
Lemma setup_retry_then_retry_witness :
  (truthy_int None = false /\ truthy_num None = false /\ 0 < 1)
  /\
  exists s1 cl,
    setup_retry (V:=nat) 0 (PInt 1) fresh = (Ok tt, s1, []) /\
    retry (V:=nat) None None default_backoff default_exceptions None None s1
    = (Ok cl, s1, []) /\
    max_retries cl = 0 /\ delay cl = PInt 1 /\
    wrapper always_fails cpython_sleep_raises cl fresh = (Ok None, fresh, []).
Proof.
  split; [repeat split|].
  destruct (setup_retry_then_retry always_fails cpython_sleep_raises 0
              (PInt 1) None None default_backoff default_exceptions None None
              fresh eq_refl eq_refl)
    as (s1 & cl & H1 & H2 & H3 & H4 & H5).
  exists s1, cl. repeat split; try assumption.
  apply H5. reflexivity.
Defined.

(** ** Properties of the module check *)

Section ModuleChecks.

Variable find_spec : string -> result bool.
Variable get_distribution_version : string -> result string.

Local Abbreviation check_one :=
  (_check_module_installed find_spec get_distribution_version).
Local Abbreviation check_all :=
  (check_module_installed find_spec get_distribution_version).

(** [raise_error] only chooses how a problem is delivered: the message
    that is returned without it is the message of the [ImportError] raised
    with it, and nothing else differs. *)
Theorem check_one_raises_what_it_would_return (module : string)
    (version : option string) :
  _check_module_installed find_spec get_distribution_version module version
    true
  = match
      _check_module_installed find_spec get_distribution_version module
        version false
    with
    | Ok (Some message) => Exn (mk_exc ImportError message)
    | r => r
    end.
Proof.
  unfold _check_module_installed, report.
  destruct (find_spec module) as [[|]|e]; try reflexivity.
  destruct version as [v|]; [|reflexivity].
  destruct (truthy_str (Some v)); [|reflexivity].
  destruct (get_distribution_version module) as [installed|e].
  - destruct (negb (String.eqb installed v)); reflexivity.
  - destruct (isinstance e [DistributionNotFound]); reflexivity.
Qed.

Lemma check_one_message_truthy module version message :
  check_one module version false = Ok (Some message) ->
  truthy_str (Some message) = true.
Proof.
  unfold _check_module_installed, report.
  destruct (find_spec module) as [[|]|e]; try discriminate.
  - destruct version as [v|]; [|discriminate].
    destruct (truthy_str (Some v)); [|discriminate].
    destruct (get_distribution_version module) as [installed|e].
    + destruct (negb (String.eqb installed v)); [|discriminate].
      intros H. inversion H. reflexivity.
    + destruct (isinstance e [DistributionNotFound]); [|discriminate].
      intros H. inversion H. reflexivity.
  - intros H. inversion H. reflexivity.
Qed.

Lemma check_each_acc version modules :
  forall idx issues,
  check_each find_spec get_distribution_version version idx modules issues
  = match check_each find_spec get_distribution_version version idx modules []
    with
    | Ok new => Ok (issues ++ new)
    | Exn e => Exn e
    end.
Proof.
  induction modules as [|module rest IH]; intros idx issues; cbn [check_each].
  { rewrite app_nil_r. reflexivity. }
  destruct (check_one module (mod_version version idx) false)
    as [[message|]|e] eqn:Hone; [| |reflexivity].
  - rewrite (check_one_message_truthy _ _ _ Hone).
    rewrite IH. rewrite (IH _ ([] ++ [message])).
    destruct (check_each _ _ version (S idx) rest []) as [new|e];
      [|reflexivity].
    rewrite <- app_assoc. reflexivity.
  - apply IH.
Qed.

(** Without [raise_error], the loop raises only if a lookup does; else it
    gathers one message for each module that has an issue, in the order of
    the modules. *)
Lemma check_each_issues version modules :
  forall idx,
  match check_each find_spec get_distribution_version version idx modules []
  with
  | Ok issues =>
      issues = issues_from find_spec get_distribution_version version idx
                 modules
  | Exn _ => True
  end.
Proof.
  induction modules as [|module rest IH]; intros idx; cbn [check_each].
  { reflexivity. }
  cbn [issues_from]. unfold issue_at.
  destruct (check_one module (mod_version version idx) false)
    as [[message|]|e] eqn:Hone; [| |exact I].
  - rewrite (check_one_message_truthy _ _ _ Hone).
    rewrite check_each_acc. specialize (IH (S idx)).
    destruct (check_each _ _ version (S idx) rest []) as [new|e];
      [|exact I].
    rewrite IH. reflexivity.
  - apply IH.
Qed.

Lemma check_one_behaves module version :
  lookups_behave find_spec get_distribution_version ->
  exists issue, check_one module version false = Ok issue.
Proof.
  intros [Hspec Hdist]. unfold _check_module_installed, report.
  destruct (Hspec module) as [found ->].
  destruct found; [|eexists; reflexivity].
  destruct version as [v|]; [|eexists; reflexivity].
  destruct (truthy_str (Some v)); [|eexists; reflexivity].
  destruct (get_distribution_version module) as [installed|e] eqn:Hd.
  - destruct (negb (String.eqb installed v)); eexists; reflexivity.
  - rewrite (Hdist _ _ Hd). eexists. reflexivity.
Qed.

Lemma check_each_behaves version modules :
  lookups_behave find_spec get_distribution_version ->
  forall idx,
  check_each find_spec get_distribution_version version idx modules []
  = Ok (issues_from find_spec get_distribution_version version idx modules).
Proof.
  intros Henv.
  induction modules as [|module rest IH]; intros idx; cbn [check_each].
  { reflexivity. }
  cbn [issues_from]. unfold issue_at.
  destruct (check_one_behaves module (mod_version version idx) Henv)
    as [issue Hone].
  rewrite Hone. destruct issue as [message|].
  - rewrite (check_one_message_truthy _ _ _ Hone).
    rewrite check_each_acc, IH. reflexivity.
  - apply IH.
Qed.

Lemma issues_from_length version modules :
  forall idx,
  (List.length (issues_from find_spec get_distribution_version version idx
                  modules)
   <= List.length modules)%nat.
Proof.
  induction modules as [|module rest IH]; intros idx; cbn [issues_from].
  { reflexivity. }
  rewrite length_app. specialize (IH (S idx)). unfold issue_at.
  destruct (check_one module (mod_version version idx) false) as [[m|]|e];
    cbn [List.length]; lia.
Qed.

(** When lookups fail only as the code expects, [check_module_installed]
    gathers one message for each module with an issue, in the order of the
    modules: with no issue it returns [None]; else it returns the list, or,
    with [raise_error], raises an [ImportError] whose message is the list
    joined by newlines. There are never more messages than modules. *)
Theorem check_all_reports_every_issue_in_order (modules : str_or_list)
    (version : option str_or_list) (raise_error : bool) :
  lookups_behave find_spec get_distribution_version ->
  check_module_installed find_spec get_distribution_version modules version
    raise_error
  = match issues_from find_spec get_distribution_version
            (versions_of modules version) 0 (modules_of modules) with
    | [] => Ok None
    | issues =>
        if raise_error
        then Exn (mk_exc ImportError (String.concat newline issues))
        else Ok (Some issues)
    end
  /\
  (List.length (issues_from find_spec get_distribution_version
                  (versions_of modules version) 0 (modules_of modules))
   <= List.length (modules_of modules))%nat.
Proof.
  intros Henv. split; [|apply issues_from_length].
  unfold check_module_installed.
  change (match modules with OneStr m => [m] | StrList l => l end)
    with (modules_of modules).
  change (match version with
          | Some (OneStr v) =>
              Some (repeat v (List.length (modules_of modules)))
          | Some (StrList l) => Some l
          | None => None
          end) with (versions_of modules version).
  rewrite (check_each_behaves _ _ Henv).
  destruct (issues_from find_spec get_distribution_version
              (versions_of modules version) 0 (modules_of modules));
    reflexivity.
Qed.

Lemma check_each_none version modules :
  forall idx,
  check_each find_spec get_distribution_version version idx modules [] = Ok []
  <-> (forall i module,
         nth_error modules i = Some module ->
         check_one module (mod_version version (idx + i)) false = Ok None).
Proof.
  induction modules as [|module rest IH]; intros idx; cbn [check_each].
  { split; [|reflexivity]. intros _ [|i] m H; discriminate. }
  destruct (check_one module (mod_version version idx) false)
    as [[message|]|e] eqn:Hone.
  - rewrite (check_one_message_truthy _ _ _ Hone), check_each_acc.
    split.
    + destruct (check_each _ _ version (S idx) rest []); discriminate.
    + intros H. specialize (H O module eq_refl).
      rewrite Nat.add_0_r in H. congruence.
  - rewrite IH. split.
    + intros H [|i] m Hm.
      * inversion Hm; subst. rewrite Nat.add_0_r. exact Hone.
      * replace (idx + S i)%nat with (S idx + i)%nat by lia. apply H.
        exact Hm.
    + intros H i m Hm.
      replace (S idx + i)%nat with (idx + S i)%nat by lia. apply H.
      exact Hm.
  - split; [discriminate|].
    intros H. specialize (H O module eq_refl).
    rewrite Nat.add_0_r in H. congruence.
Qed.

Lemma check_all_none_spec (modules : str_or_list)
    (version : option str_or_list) (raise_error : bool) :
  check_all modules version raise_error = Ok None
  <-> (forall i module,
         nth_error (modules_of modules) i = Some module ->
         check_one module (mod_version (versions_of modules version) i) false
         = Ok None).
Proof.
  rewrite <- (check_each_none _ _ O).
  unfold check_module_installed.
  change (match modules with OneStr m => [m] | StrList l => l end)
    with (modules_of modules).
  change (match version with
          | Some (OneStr v) =>
              Some (repeat v (List.length (modules_of modules)))
          | Some (StrList l) => Some l
          | None => None
          end) with (versions_of modules version).
  destruct (check_each _ _ (versions_of modules version) 0
              (modules_of modules) []) as [[|issue issues]|e].
  - split; reflexivity.
  - split; [destruct raise_error|]; discriminate.
  - split; discriminate.
Qed.

(** Whatever the lookups do, [check_module_installed] returns [None]
    exactly when each module passes its own check, the module at [i]
    against the version at [i] if there is one and against no version
    otherwise. *)
Theorem check_all_none_iff_each_passes (modules : str_or_list)
    (version : option str_or_list) (raise_error : bool) :
  check_module_installed find_spec get_distribution_version modules version
    raise_error = Ok None
  <-> (forall i module,
         nth_error (modules_of modules) i = Some module ->
         _check_module_installed find_spec get_distribution_version module
           (mod_version (versions_of modules version) i) false
         = Ok None).
Proof. apply check_all_none_spec. Qed.

Lemma mod_version_in_range (vs : list string) (i : nat) :
  (i < List.length vs)%nat -> mod_version (Some vs) i = nth_error vs i.
Proof.
  intros Hi. unfold mod_version.
  destruct (Nat.eqb_spec (List.length vs) 0) as [H0|H0]; [lia|].
  destruct (Nat.ltb_spec i (List.length vs)) as [Hlt|Hge]; [reflexivity|lia].
Qed.

Lemma mod_version_out_of_range (vs : list string) (i : nat) :
  (List.length vs <= i)%nat -> mod_version (Some vs) i = None.
Proof.
  intros Hi. unfold mod_version.
  destruct (Nat.ltb_spec i (List.length vs)) as [Hlt|Hge]; [lia|].
  rewrite andb_false_r. reflexivity.
Qed.

(** A version given as one string is required of every module of the
    list. *)
Theorem check_all_one_version_for_all (modules : list string) (v : string)
    (raise_error : bool) :
  check_module_installed find_spec get_distribution_version
    (StrList modules) (Some (OneStr v)) raise_error = Ok None
  <-> Forall
        (fun module =>
           _check_module_installed find_spec get_distribution_version module
             (Some v) false = Ok None)
        modules.
Proof.
  rewrite check_all_none_spec. cbn [modules_of versions_of].
  rewrite Forall_forall. split.
  - intros H module Hin. apply In_nth_error in Hin. destruct Hin as [i Hi].
    specialize (H i module Hi).
    assert (Hlt : (i < List.length modules)%nat).
    { apply nth_error_Some. congruence. }
    rewrite mod_version_in_range in H by (rewrite repeat_length; exact Hlt).
    rewrite nth_error_repeat in H by exact Hlt. exact H.
  - intros H i module Hi.
    assert (Hlt : (i < List.length modules)%nat).
    { apply nth_error_Some. congruence. }
    rewrite mod_version_in_range by (rewrite repeat_length; exact Hlt).
    rewrite nth_error_repeat by exact Hlt.
    apply H. eapply nth_error_In. exact Hi.
Qed.

(** With a list of versions shorter than the list of modules, the modules
    past its end are checked for being installed only. *)
Theorem check_all_short_version_list (ms1 ms2 vs : list string)
    (raise_error : bool) :
  List.length ms1 = List.length vs ->
  check_module_installed find_spec get_distribution_version
    (StrList (ms1 ++ ms2)) (Some (StrList vs)) raise_error = Ok None
  <-> ((forall i module v,
          nth_error ms1 i = Some module -> nth_error vs i = Some v ->
          _check_module_installed find_spec get_distribution_version module
            (Some v) false = Ok None)
       /\ Forall
            (fun module =>
               _check_module_installed find_spec get_distribution_version
                 module None false = Ok None)
            ms2).
Proof.
  intros Hlen. rewrite check_all_none_spec. cbn [modules_of versions_of].
  rewrite Forall_forall. split.
  - intros H. split.
    + intros i module v Hm Hv.
      assert (Hlt : (i < List.length ms1)%nat).
      { apply nth_error_Some. congruence. }
      specialize (H i module). rewrite nth_error_app1 in H by exact Hlt.
      specialize (H Hm). rewrite mod_version_in_range, Hv in H by lia.
      exact H.
    + intros module Hin. apply In_nth_error in Hin. destruct Hin as [j Hj].
      specialize (H (List.length ms1 + j)%nat module).
      rewrite nth_error_app2 in H by lia.
      replace (List.length ms1 + j - List.length ms1)%nat with j in H by lia.
      specialize (H Hj). rewrite mod_version_out_of_range in H by lia.
      exact H.
  - intros [H1 H2] i module Hi.
    destruct (Nat.lt_ge_cases i (List.length ms1)) as [Hlt|Hge].
    + rewrite nth_error_app1 in Hi by exact Hlt.
      rewrite mod_version_in_range by lia.
      destruct (nth_error vs i) as [v|] eqn:Hv.
      * eapply H1; eassumption.
      * apply nth_error_None in Hv. lia.
    + rewrite nth_error_app2 in Hi by exact Hge.
      rewrite mod_version_out_of_range by lia.
      apply H2. eapply nth_error_In. exact Hi.
Qed.

End ModuleChecks.

Lemma sample_lookups_behave : lookups_behave sample_find_spec sample_version.
Proof.
  split.
  - intros module. eexists. reflexivity.
  - intros module e H. unfold sample_version in H.
    destruct (String.eqb module "requests"); inversion H. reflexivity.
Defined.

(** Three modules, three versions, three kinds of issue. *)
Lemma check_all_reports_every_issue_in_order_witness :
  lookups_behave sample_find_spec sample_version
  /\
  check_module_installed sample_find_spec sample_version
    (StrList ["requests"; "numpy"; "colorama"]%string)
    (Some (StrList ["2.0.0"; "1.0"; "0.4.6"]%string)) false
  = Ok (Some
      ["Module 'requests' is installed but version 2.31.0 does not match the required version 2.0.0.";
       "Module 'numpy' is not installed. Please install it using 'pip install numpy'.";
       "Module 'colorama' is installed, but no version information was found."
      ]%string).
Proof.
  split; [exact sample_lookups_behave|].
  destruct (check_all_reports_every_issue_in_order sample_find_spec
              sample_version
              (StrList ["requests"; "numpy"; "colorama"]%string)
              (Some (StrList ["2.0.0"; "1.0"; "0.4.6"]%string)) false
              sample_lookups_behave) as [H _].
  rewrite H. reflexivity.
Defined.

(** One version for two modules: the second is only looked up. *)
Lemma check_all_short_version_list_witness :
  List.length ["requests"%string] = List.length ["2.31.0"%string]
  /\
  (check_module_installed sample_find_spec sample_version
     (StrList (["requests"%string] ++ ["colorama"%string]))
     (Some (StrList ["2.31.0"%string])) false = Ok None
   <-> ((forall i module v,
           nth_error ["requests"%string] i = Some module ->
           nth_error ["2.31.0"%string] i = Some v ->
           _check_module_installed sample_find_spec sample_version module
             (Some v) false = Ok None)
        /\ Forall
             (fun module =>
                _check_module_installed sample_find_spec sample_version module
                  None false = Ok None) ["colorama"%string])).
Proof.
  split; [reflexivity|].
  apply (check_all_short_version_list sample_find_spec sample_version
           ["requests"%string] ["colorama"%string] ["2.31.0"%string] false).
  reflexivity.
Defined.

(** ** Properties of the Chrome version lookup *)

Local Open Scope string_scope.

Lemma str_app_nil_r (s : string) : s ++ "" = s.
Proof. induction s as [|ch s IH]; cbn; [|rewrite IH]; reflexivity. Qed.

Lemma str_app_assoc (a b c : string) : (a ++ b) ++ c = a ++ (b ++ c).
Proof. induction a as [|ch a IH]; cbn; [|rewrite IH]; reflexivity. Qed.

Lemma all_space_app (a b : string) :
  all_space (a ++ b) = all_space a && all_space b.
Proof.
  induction a as [|ch a IH]; cbn; [reflexivity|].
  rewrite IH. apply andb_assoc.
Qed.

Lemma no_space_app (a b : string) :
  no_space (a ++ b) = no_space a && no_space b.
Proof.
  induction a as [|ch a IH]; cbn; [reflexivity|].
  rewrite IH. apply andb_assoc.
Qed.

Lemma all_space_ends (s : string) :
  all_space s = true -> s <> "" -> ends_with_space s.
Proof.
  induction s as [|ch s IH]; intros Hs Hne; [contradiction|].
  cbn in Hs. apply andb_true_iff in Hs as [Hch Hs].
  destruct s as [|c s'].
  - exists "", ch. split; [reflexivity|exact Hch].
  - destruct (IH Hs ltac:(discriminate)) as (p & c' & Heq & Hc').
    exists (String ch p), c'. split; [|exact Hc'].
    cbn. rewrite <- Heq. reflexivity.
Qed.

Lemma ends_with_space_app (a b : string) :
  ends_with_space b -> ends_with_space (a ++ b).
Proof.
  intros (p & ch & -> & Hch). exists (a ++ p), ch.
  split; [|exact Hch]. symmetry. apply str_app_assoc.
Qed.

Lemma lstrip_decompose (s : string) :
  exists lead, s = lead ++ lstrip s /\ all_space lead = true.
Proof.
  induction s as [|ch s IH].
  - exists "". split; reflexivity.
  - cbn [lstrip]. destruct (isspace ch) eqn:Hch.
    + destruct IH as (lead & Heq & Hlead).
      exists (String ch lead). split.
      * cbn. rewrite <- Heq. reflexivity.
      * cbn. rewrite Hch, Hlead. reflexivity.
    + exists "". split; reflexivity.
Qed.

Lemma rstrip_decompose (s : string) :
  exists trail, s = rstrip s ++ trail /\ all_space trail = true.
Proof.
  induction s as [|ch s IH].
  - exists "". split; reflexivity.
  - destruct IH as (trail & Heq & Htrail). cbn [rstrip].
    destruct (rstrip s) as [|c r] eqn:Hr.
    + cbn in Heq. subst trail. destruct (isspace ch) eqn:Hch.
      * exists (String ch s). split; [reflexivity|].
        cbn. rewrite Hch, Htrail. reflexivity.
      * exists s. split; [reflexivity|exact Htrail].
    + exists trail. split; [|exact Htrail].
      cbn. cbn in Heq. rewrite <- Heq. reflexivity.
Qed.

Lemma strip_decompose (s : string) :
  exists lead trail,
    s = lead ++ str_strip s ++ trail
    /\ all_space lead = true /\ all_space trail = true.
Proof.
  destruct (lstrip_decompose s) as (lead & Hl & Hlead).
  destruct (rstrip_decompose (lstrip s)) as (trail & Hr & Htrail).
  exists lead, trail. unfold str_strip. rewrite <- Hr. auto.
Qed.

Lemma split_from_nil (s word : string) :
  split_from s word = [] -> word = "" /\ all_space s = true.
Proof.
  revert word. induction s as [|ch s IH]; intros word H; cbn in H.
  - destruct word; [split; reflexivity|discriminate].
  - destruct (isspace ch) eqn:Hch.
    + destruct word; [|discriminate].
      apply IH in H. cbn. rewrite Hch. destruct H as [_ ->]. auto.
    + apply IH in H. destruct H as [H _]. destruct word; discriminate.
Qed.

Lemma all_space_split (s : string) :
  all_space s = true -> split_from s "" = [].
Proof.
  induction s as [|ch s IH]; intros H; [reflexivity|].
  cbn in H. apply andb_true_iff in H as [Hch Hs].
  cbn. rewrite Hch. apply IH. exact Hs.
Qed.

(** The last word that [split_from] gives is a non-empty stretch without
    white space, followed by white space only and preceded by nothing or
    by white space. *)
Lemma split_from_last (s : string) :
  forall word l v,
  no_space word = true ->
  split_from s word = (l ++ [v])%list ->
  no_space v = true /\ v <> "" /\
  exists pre post,
    word ++ s = pre ++ v ++ post /\ all_space post = true
    /\ (pre = "" \/ ends_with_space pre).
Proof.
  induction s as [|ch rest IH]; intros word l v Hw H; cbn [split_from] in H.
  - destruct word as [|c w].
    { destruct l; discriminate. }
    destruct l as [|x l']; [|destruct l'; discriminate].
    inversion H; subst v. repeat split; [exact Hw|discriminate|].
    exists "", "". split; [reflexivity|auto].
  - destruct (isspace ch) eqn:Hch.
    + destruct word as [|c w].
      * destruct (IH "" l v eq_refl H)
          as (Hv & Hne & pre & post & Heq & Hpost & Hpre).
        cbn in Heq. repeat split; [exact Hv|exact Hne|].
        exists (String ch pre), post. cbn. rewrite Heq.
        split; [reflexivity|]. split; [exact Hpost|]. right.
        destruct Hpre as [->|Hpre].
        -- exists "", ch. auto.
        -- apply (ends_with_space_app (String ch "") pre Hpre).
      * destruct l as [|x l'].
        -- inversion H as [[Hv Hnil]]. apply split_from_nil in Hnil.
           destruct Hnil as [_ Hrest].
           repeat split; [exact Hw|discriminate|].
           exists "", (String ch rest). cbn. rewrite Hch, Hrest. auto.
        -- inversion H as [[Hx Hrest]].
           destruct (IH "" l' v eq_refl Hrest)
             as (Hv & Hne & pre & post & Heq & Hpost & Hpre).
           cbn in Heq. repeat split; [exact Hv|exact Hne|].
           exists (String c w ++ String ch pre), post.
           split; [|split; [exact Hpost|right]].
           ++ rewrite str_app_assoc. cbn. rewrite Heq. reflexivity.
           ++ destruct Hpre as [->|Hpre].
              ** exists (String c w), ch. auto.
              ** apply (ends_with_space_app (String c w ++ String ch "")) in Hpre.
                 rewrite str_app_assoc in Hpre. exact Hpre.
    + assert (Hw' : no_space (word ++ String ch "") = true).
      { rewrite no_space_app, Hw. cbn. rewrite Hch. reflexivity. }
      destruct (IH _ l v Hw' H)
        as (Hv & Hne & pre & post & Heq & Hpost & Hpre).
      repeat split; [exact Hv|exact Hne|].
      exists pre, post. rewrite str_app_assoc in Heq. cbn in Heq. auto.
Qed.

Section ChromeVersion.

Variable run_version : string -> result (Z * string).
Variable get_chrome_version_windows : result (option string).

Lemma blank_output_has_no_words (stdout : string) :
  all_space stdout = true -> str_split (str_strip stdout) = [].
Proof.
  intros H. apply all_space_split.
  destruct (strip_decompose stdout) as (lead & trail & Heq & _ & _).
  rewrite Heq, !all_space_app in H.
  apply andb_true_iff in H as [_ H]. apply andb_true_iff in H as [H _].
  exact H.
Qed.

(** A version that [get_chrome_version_unix] returns is the last word of
    the output of a command that exited with 0: a non-empty stretch
    without white space, with white space only after it, and nothing or
    white space right before it. *)
Theorem chrome_unix_returns_last_word (chrome_path : string) (returncode : Z)
    (stdout v : string) :
  run_version chrome_path = Ok (returncode, stdout) ->
  get_chrome_version_unix run_version chrome_path = Ok (Some v) ->
  returncode = 0%Z /\ no_space v = true /\ v <> "" /\
  exists pre post,
    stdout = pre ++ v ++ post /\ all_space post = true
    /\ (pre = "" \/ ends_with_space pre).
Proof.
  intros Hrun H. unfold get_chrome_version_unix in H. rewrite Hrun in H.
  destruct (Z.eqb_spec returncode 0) as [Hrc|Hrc]; [|discriminate].
  split; [exact Hrc|].
  destruct (str_split (str_strip stdout)) as [|w ws] eqn:Hwords;
    [discriminate|].
  assert (Hv : last (w :: ws) "" = v) by congruence. clear H.
  assert (Hlast : (w :: ws) = (removelast (w :: ws) ++ [v])%list).
  { rewrite <- Hv. apply app_removelast_last. discriminate. }
  rewrite Hlast in Hwords. unfold str_split in Hwords.
  destruct (split_from_last (str_strip stdout) "" (removelast (w :: ws)) v
              eq_refl Hwords)
    as (Hns & Hne & pre & post & Heq & Hpost & Hpre).
  cbn [append] in Heq. repeat split; [exact Hns|exact Hne|].
  destruct (strip_decompose stdout) as (lead & trail & Hout & Hlead & Htrail).
  exists (lead ++ pre), (post ++ trail). split; [|split].
  - rewrite Hout at 1. rewrite Heq. rewrite !str_app_assoc. reflexivity.
  - rewrite all_space_app, Hpost, Htrail. reflexivity.
  - destruct Hpre as [->|Hpre].
    + rewrite str_app_nil_r. destruct lead as [|c lead'].
      * left. reflexivity.
      * right. apply all_space_ends; [exact Hlead|discriminate].
    + right. apply ends_with_space_app. exact Hpre.
Qed.

(** On Darwin and Linux, a command that exits with 0 and prints nothing
    but white space makes [get_chrome_version] raise a plain [Exception]
    that carries the text of the [IndexError], and a command that exits
    with another code makes it return [None] without any error. *)
Theorem chrome_version_without_output (system chrome_path : string)
    (returncode : Z) (stdout : string) :
  system = "Darwin" \/ system = "Linux" ->
  run_version chrome_path = Ok (returncode, stdout) ->
  (returncode = 0%Z -> all_space stdout = true ->
   get_chrome_version run_version get_chrome_version_windows system
     chrome_path
   = Exn (mk_exc Exception
            "Get chrome version error: list index out of range"))
  /\
  (returncode <> 0%Z ->
   get_chrome_version run_version get_chrome_version_windows system
     chrome_path
   = Ok None).
Proof.
  intros Hsys Hrun.
  assert (Hbody :
    get_chrome_version run_version get_chrome_version_windows system
      chrome_path
    = match get_chrome_version_unix run_version chrome_path with
      | Ok version => Ok version
      | Exn e =>
          if isinstance e [Exception]
          then Exn (mk_exc Exception
                      ("Get chrome version error: " ++ exc_args e))
          else Exn e
      end).
  { unfold get_chrome_version. destruct Hsys as [-> | ->]; reflexivity. }
  rewrite Hbody. unfold get_chrome_version_unix. rewrite Hrun. split.
  - intros -> Hblank. cbn [Z.eqb].
    rewrite (blank_output_has_no_words _ Hblank). reflexivity.
  - intros Hrc. apply Z.eqb_neq in Hrc. rewrite Hrc. reflexivity.
Qed.

(** On any system other than Windows, Darwin and Linux,
    [get_chrome_version] raises a plain [Exception] that names the system,
    and runs nothing. *)
Theorem chrome_version_unsupported_platform (system chrome_path : string) :
  system <> "Windows" -> system <> "Darwin" -> system <> "Linux" ->
  get_chrome_version run_version get_chrome_version_windows system chrome_path
  = Exn (mk_exc Exception
           ("Get chrome version error: Unsupported platform: " ++ system)).
Proof.
  intros Hw Hd Hl. unfold get_chrome_version.
  apply String.eqb_neq in Hw, Hd, Hl. rewrite Hw, Hd, Hl. reflexivity.
Qed.

(** An exception that leaves [get_chrome_version] is either a plain
    [Exception] whose text is the prefix and the text of an exception
    deriving from [Exception], whose class is lost, or an exception that
    does not derive from [Exception] and passes through as it is. *)
Theorem chrome_version_errors_lose_their_class (system chrome_path : string)
    (e : exc) :
  get_chrome_version run_version get_chrome_version_windows system chrome_path
  = Exn e ->
  (exc_type e = Exception /\
   exists e0, isinstance e0 [Exception] = true /\
     exc_args e = "Get chrome version error: " ++ exc_args e0)
  \/ isinstance e [Exception] = false.
Proof.
  unfold get_chrome_version.
  match goal with
  | |- match ?body with _ => _ end = _ -> _ => destruct body as [v|e0]
  end; [discriminate|].
  destruct (isinstance e0 [Exception]) eqn:Hi; intros H; inversion H; subst.
  - left. split; [reflexivity|]. exists e0. split; [exact Hi|reflexivity].
  - right. exact Hi.
Qed.

End ChromeVersion.

(** The output [Google Chrome 120.0.6099.109], a blank and a newline. *)
Lemma chrome_unix_returns_last_word_witness :
  (chrome_prints_version "/usr/bin/google-chrome"
   = Ok (0%Z, "Google Chrome 120.0.6099.109 " ++ newline)
   /\ get_chrome_version_unix chrome_prints_version "/usr/bin/google-chrome"
      = Ok (Some "120.0.6099.109"))
  /\
  (0 = 0)%Z /\ no_space "120.0.6099.109" = true /\ "120.0.6099.109" <> "" /\
  exists pre post,
    "Google Chrome 120.0.6099.109 " ++ newline
    = pre ++ "120.0.6099.109" ++ post
    /\ all_space post = true /\ (pre = "" \/ ends_with_space pre).
Proof.
  split; [split; reflexivity|].
  apply (chrome_unix_returns_last_word chrome_prints_version
           "/usr/bin/google-chrome" 0%Z
           ("Google Chrome 120.0.6099.109 " ++ newline) "120.0.6099.109");
    reflexivity.
Defined.

(** A blank line on Linux. *)
Lemma chrome_version_without_output_witness :
  (("Linux" = "Darwin" \/ "Linux" = "Linux")
   /\ chrome_prints_blank "/usr/bin/google-chrome" = Ok (0%Z, newline)
   /\ all_space newline = true)
  /\
  get_chrome_version chrome_prints_blank (Ok None) "Linux"
    "/usr/bin/google-chrome"
  = Exn (mk_exc Exception "Get chrome version error: list index out of range").
Proof.
  split; [split; [right; reflexivity|split; reflexivity]|].
  destruct (chrome_version_without_output chrome_prints_blank (Ok None)
              "Linux" "/usr/bin/google-chrome" 0%Z newline
              (or_intror eq_refl) eq_refl) as [H _].
  apply H; reflexivity.
Defined.

(** FreeBSD. *)
Lemma chrome_version_unsupported_platform_witness :
  ("FreeBSD" <> "Windows" /\ "FreeBSD" <> "Darwin" /\ "FreeBSD" <> "Linux")
  /\
  get_chrome_version chrome_prints_version (Ok None) "FreeBSD"
    "/usr/bin/google-chrome"
  = Exn (mk_exc Exception
           "Get chrome version error: Unsupported platform: FreeBSD").
Proof.
  split; [repeat split; discriminate|].
  apply (chrome_version_unsupported_platform chrome_prints_version (Ok None)
           "FreeBSD" "/usr/bin/google-chrome"); discriminate.
Defined.

(** The [ValueError] for FreeBSD leaves as a plain [Exception]. *)
Lemma chrome_version_errors_lose_their_class_witness :
  get_chrome_version chrome_prints_version (Ok None) "FreeBSD"
    "/usr/bin/google-chrome"
  = Exn (mk_exc Exception
           "Get chrome version error: Unsupported platform: FreeBSD")
  /\
  ((exc_type (mk_exc Exception
                "Get chrome version error: Unsupported platform: FreeBSD")
    = Exception /\
    exists e0, isinstance e0 [Exception] = true /\
      exc_args (mk_exc Exception
                  "Get chrome version error: Unsupported platform: FreeBSD")
      = "Get chrome version error: " ++ exc_args e0)
   \/ isinstance (mk_exc Exception
                    "Get chrome version error: Unsupported platform: FreeBSD")
        [Exception] = false).
Proof.
  split; [reflexivity|].
  apply (chrome_version_errors_lose_their_class chrome_prints_version
           (Ok None) "FreeBSD" "/usr/bin/google-chrome").
  reflexivity.
Defined.

(** Whatever the lookups do, a module passes its check exactly when it is
    found and either no version is asked for ([None] or the empty string)
    or the installed version is the one asked for. *)
Theorem check_one_passes_iff (find_spec : string -> result bool)
    (get_distribution_version : string -> result string) (module : string)
    (version : option string) (raise_error : bool) :
  _check_module_installed find_spec get_distribution_version module version
    raise_error = Ok None
  <-> find_spec module = Ok true
      /\ (version = None \/ version = Some ""
          \/ exists v, version = Some v
                       /\ get_distribution_version module = Ok v).
Proof.
  unfold _check_module_installed, report.
  destruct (find_spec module) as [[|]|e].
  - destruct version as [v|].
    + cbn [truthy_str]. destruct (String.eqb_spec v "") as [->|Hv];
        cbn [negb].
      * split; [intros _|reflexivity]. split; [reflexivity|]. auto.
      * destruct (get_distribution_version module) as [installed|e].
        -- destruct (String.eqb_spec installed v) as [->|Hne]; cbn [negb].
           ++ split; [intros _|reflexivity]. split; [reflexivity|].
              right. right. exists v. auto.
           ++ split; [destruct raise_error; discriminate|].
              intros [_ [H|[H|(v0 & H1 & H2)]]]; congruence.
        -- split.
           ++ destruct (isinstance e [DistributionNotFound]);
                [destruct raise_error|]; discriminate.
           ++ intros [_ [H|[H|(v0 & H1 & H2)]]]; congruence.
    + split; [intros _|reflexivity]. split; [reflexivity|]. auto.
  - split; [destruct raise_error; discriminate|]. intros [H _]. discriminate.
  - split; [discriminate|]. intros [H _]. discriminate.
Qed.
